(** * supercell: content-type providers and Accept-header negotiation

    A shallow embedding of [supercell/api/provider.py]: the provider
    registry kept by the metaclass [ProviderMeta] and the negotiation
    routine [ProviderMeta.map_provider], followed by the properties of
    the negotiation and of the registry. *)

From Stdlib Require Import Ascii QArith.
From stdpp Require Import gmap strings list fin_maps.

Local Close Scope Q_scope.

Local Open Scope string_scope.
Local Open Scope list_scope.

(** ** [supercell.api]: the content type value *)

Module Api.

(** Modelled from the spec: the class [ContentType] of [supercell.api],
    which [provider.py] imports.  A value made of a media type and the
    optional vendor and version qualifiers ([None] when absent); equality
    and hashing are by value, over the three fields.  The first field
    bears the name [provider.py] reads it by ([ct.content_type]). *)
Record ContentType : Type := mkContentType {
  content_type : string;
  vendor : option string;
  version : option string
}.

#[global] Instance ContentType_eq_dec : EqDecision ContentType.
Proof. solve_decision. Defined.

#[global] Instance ContentType_countable : Countable ContentType.
Proof.
  apply (inj_countable'
           (λ c, (content_type c, vendor c, version c))
           (λ t, mkContentType t.1.1 t.1.2 t.2)).
  by intros [].
Defined.

End Api.
Export Api.

(** ** Exceptions and the state of the interpreter *)

(** The exceptions the modelled code can raise.  [NoProviderFound] is the
    class declared in [provider.py]; [IndexError] is what the subscript
    [known_types[0]] raises on an empty list. *)
Inductive exn : Type :=
| NoProviderFound
| IndexError.

#[global] Instance exn_eq_dec : EqDecision exn.
Proof. solve_decision. Defined.

(** How a call ends: it returns a value or raises. *)
Inductive outcome (A : Type) : Type :=
| Return (a : A)
| Raise (e : exn).
Arguments Return {A} a.
Arguments Raise {A} e.

(** [collections.defaultdict(list)] with string keys.  Reading a key
    that is absent stores an empty list under it and returns that list;
    [k in d] and the read of a present key leave the dict alone. *)
Section defaultdict.
Context {V : Type}.

Definition defaultdict_getitem (k : string) (d : gmap string (list V))
  : list V * gmap string (list V) :=
  match d !! k with
  | Some l => (l, d)
  | None => ([], <[k := []]> d)
  end.

(** [d[k].append(x)] *)
Definition defaultdict_append (k : string) (x : V) (d : gmap string (list V))
  : gmap string (list V) :=
  let '(l, d') := defaultdict_getitem k d in
  <[k := l ++ [x]]> d'.

(** What a read of [k] yields, without the store. *)
Definition entries (d : gmap string (list V)) (k : string) : list V :=
  default [] (d !! k).
End defaultdict.

(** A class created by the metaclass, as far as the module looks at it:
    its name, the value the attribute lookup [provider_class.CONTENT_TYPE]
    yields, and whether [__new__] has bound [map_provider] on it.  The
    registry keeps a reference to the class object, so the record stored
    there is the object as [__new__] leaves it. *)
Record provider_class : Type := mkClass {
  cls_name : string;
  CONTENT_TYPE : option ContentType;
  cls_map_provider : bool
}.

#[global] Instance provider_class_eq_dec : EqDecision provider_class.
Proof. solve_decision. Defined.

(** [ProviderMeta.KNOWN_CONTENT_TYPES], the only mutable state of the
    module: base media type to the registered (content type, class)
    pairs, in registration order. *)
Abbreviation registry := (gmap string (list (ContentType * provider_class))).

(** Computations over the registry that may raise. *)
Definition M (A : Type) : Type := registry → outcome A * registry.

#[global] Instance M_ret : MRet M := λ A a reg, (Return a, reg).
#[global] Instance M_bind : MBind M := λ A B k m reg,
  match m reg with
  | (Return a, reg') => k a reg'
  | (Raise e, reg') => (Raise e, reg')
  end.

Definition raise {A} (e : exn) : M A := λ reg, (Raise e, reg).

(** [ProviderMeta.KNOWN_CONTENT_TYPES[k]] *)
Definition known_content_types (k : string)
  : M (list (ContentType * provider_class)) :=
  λ reg, let '(l, reg') := defaultdict_getitem k reg in (Return l, reg').

(** [ProviderMeta.KNOWN_CONTENT_TYPES[k].append(x)] *)
Definition known_content_types_append (k : string)
    (x : ContentType * provider_class) : M unit :=
  λ reg, (Return (), defaultdict_append k x reg).

(** ** [supercell.utils]: the Accept header parser *)

(** One entry of a parsed header: the tuple [(ctype, params, q)]. *)
Record AcceptPreference : Type := mkPref {
  media_type : string;
  params : gmap string string;
  quality : Q
}.

Module Utils.

(** Modelled from the spec: the split of the header on [,] and of an entry
    on [;], as [s.split(sep)] does it: the pieces between the separators,
    in order; never the empty list. *)
Fixpoint split_on (sep : ascii) (s : string) : list string :=
  match s with
  | EmptyString => [EmptyString]
  | String c s' =>
      if decide (c = sep) then EmptyString :: split_on sep s'
      else match split_on sep s' with
           | w :: ws => String c w :: ws
           | [] => [String c EmptyString]
           end
  end.

(** Modelled from the spec: a [key=value] token taken apart at its first
    [=], if there is one. *)
Fixpoint partition_at (sep : ascii) (s : string) : option (string * string) :=
  match s with
  | EmptyString => None
  | String c s' =>
      if decide (c = sep) then Some (EmptyString, s')
      else '(k, v) ← partition_at sep s'; Some (String c k, v)
  end.

(** Modelled from the spec: the trimming of white space around tokens and
    values, first on the left, then on both sides. *)
Fixpoint lstrip (s : string) : string :=
  match s with
  | String c s' => if Ascii.is_space c then lstrip s' else s
  | EmptyString => EmptyString
  end.

Definition strip (s : string) : string :=
  String.rev (lstrip (String.rev (lstrip s))).

(** Modelled from the spec: the value of a string of decimal digits. *)
Fixpoint digits (acc : N) (s : string) : option N :=
  match s with
  | EmptyString => Some acc
  | String c s' => d ← Ascii.is_nat c; digits (10 * acc + N.of_nat d)%N s'
  end.

(** Modelled from the spec: the number a [q] parameter stands for, when it
    is written as a plain decimal, [1], [0.8] or [.5]. *)
Definition parse_quality (s : string) : option Q :=
  match split_on "." s with
  | [i] =>
      if decide (i = "") then None
      else n ← digits 0 i; Some (Z.of_N n # 1)%Q
  | [i; f] =>
      if decide (i = "" ∧ f = "") then None
      else n ← digits 0 (i +:+ f);
           Some (Z.of_N n # Z.to_pos (10 ^ Z.of_nat (String.length f)))%Q
  | _ => None
  end.

(** Modelled from the spec: one [key=value] token of an entry is taken
    into the preference.  [q] sets the quality, 1.0 when
    its value does not parse; every other parameter is stored as it is
    written, trimmed.  A token without [=] is no parameter. *)
Definition parse_param (pref : AcceptPreference) (token : string)
  : AcceptPreference :=
  match partition_at "=" token with
  | None => pref
  | Some (k, v) =>
      let key := strip k in
      let value := strip v in
      if decide (key = "q")
      then mkPref (media_type pref) (params pref)
                  (default 1%Q (parse_quality value))
      else mkPref (media_type pref) (<[key := value]> (params pref))
                  (quality pref)
  end.

(** Modelled from the spec: one entry of the header, its media type token
    followed by its parameters. *)
Definition parse_entry (entry : string) : AcceptPreference :=
  match split_on ";" entry with
  | token :: tokens => foldl parse_param (mkPref (strip token) ∅ 1%Q) tokens
  | [] => mkPref EmptyString ∅ 1%Q
  end.

(** Modelled from the spec: the function [parse_accept_header] of
    [supercell.utils], which [provider.py] imports.  The raw header is
    split on [,] into entries and each entry on [;] into the media type
    token and its [key=value] parameters; tokens and values are trimmed;
    a missing [q] is quality 1.0; the entries keep the order of the
    header; the empty string has no entry. *)
Definition parse_accept_header (header_value : string)
  : list AcceptPreference :=
  if decide (header_value = "") then []
  else parse_entry <$> split_on "," header_value.

End Utils.
Export Utils.

(** ** The request handler *)

(** Modelled from the spec: what [map_provider] reads of the request
    handler, the attribute [_PROD_CONTENT_TYPES]: base media type to the
    set of content types the handler produces. *)
Record Handler : Type := mkHandler {
  _PROD_CONTENT_TYPES : gmap string (gset ContentType)
}.

(** ** [ProviderMeta] *)

Module ProviderMeta.

(** [KNOWN_CONTENT_TYPES = defaultdict(list)] *)
Definition KNOWN_CONTENT_TYPES : registry := ∅.

(** [ProviderMeta.__new__(cls, name, bases, dct)].  [ct] stands for the
    value that [provider_class.CONTENT_TYPE] evaluates to on the class
    built from [bases] and [dct]; a [ContentType] value is truthy and
    [None] is not. *)
Definition __new__ (name : string) (ct : option ContentType)
  : M provider_class :=
  match ct with
  | Some c =>
      let provider_class :=
        mkClass name ct (bool_decide (name = "ProviderBase")) in
      _ ← known_content_types_append (content_type c) (c, provider_class);
      mret provider_class
  | None => mret (mkClass name ct false)
  end.

(** The candidate built at lines 85-86. *)
Definition candidate (p : AcceptPreference) : ContentType :=
  mkContentType (media_type p) (params p !! "vendor") (params p !! "version").

(** The [for] loop of [map_provider], lines 81-96, over the handler's
    [_PROD_CONTENT_TYPES]. *)
Fixpoint map_provider_loop (prod : gmap string (gset ContentType))
    (accept : list AcceptPreference) : M provider_class :=
  match accept with
  | [] => raise NoProviderFound
  | p :: accept' =>
      let ctype := media_type p in
      match prod !! ctype with
      | None => raise NoProviderFound
      | Some produced =>
          let c := candidate p in
          if decide (c ∈ produced) then
            known ← known_content_types ctype;
            let known_types := filter (λ t, t.1 = c) known in
            if decide (length known_types = 1) then
              match known_types !! 0 with
              | Some t => mret t.2
              | None => raise IndexError
              end
            else map_provider_loop prod accept'
          else raise NoProviderFound
      end
  end.

(** [ProviderMeta.map_provider(accept_header, handler)] *)
Definition map_provider (accept_header : string) (handler : Handler)
  : M provider_class :=
  let accept := parse_accept_header accept_header in
  if decide (String.length accept_header = 0) then raise NoProviderFound
  else map_provider_loop (_PROD_CONTENT_TYPES handler) accept.

End ProviderMeta.

(** ** The classes the module declares *)

Definition application_json : ContentType :=
  mkContentType "application/json" None None.

(** The module body, run at import: [class ProviderBase] with
    [CONTENT_TYPE = None], then [class JsonProvider] with the JSON
    content type. *)
Definition module_body : M (provider_class * provider_class) :=
  base ← ProviderMeta.__new__ "ProviderBase" None;
  json ← ProviderMeta.__new__ "JsonProvider" (Some application_json);
  mret (base, json).

Definition ProviderBase : provider_class :=
  mkClass "ProviderBase" None false.
Definition JsonProvider : provider_class :=
  mkClass "JsonProvider" (Some application_json) false.

(** ** Vocabulary of the negotiation properties *)

Section vocabulary.
Variable prod : gmap string (gset ContentType).
Variable reg : registry.

(** The handler produces the candidate of [p]: both checks of the
    loop body, lines 82 and 87, let [p] through. *)
Definition produces (p : AcceptPreference) : Prop :=
  ∃ produced, prod !! media_type p = Some produced
              ∧ ProviderMeta.candidate p ∈ produced.

(** The registry entries for the media type of [p] whose content type
    equals the candidate, the list [known_types] of line 90. *)
Definition registered (p : AcceptPreference)
  : list (ContentType * provider_class) :=
  filter (λ t, t.1 = ProviderMeta.candidate p) (entries reg (media_type p)).

(** The loop goes past [p] to the next preference. *)
Definition passed_over (p : AcceptPreference) : Prop :=
  produces p ∧ length (registered p) ≠ 1.

(** [p] is reached by the loop when every preference before it is
    passed over. *)
Definition reached (before : list AcceptPreference) : Prop :=
  Forall passed_over before.

#[global] Instance produces_dec p : Decision (produces p).
Proof.
  unfold produces. destruct (prod !! media_type p) as [produced|] eqn:H.
  - destruct (decide (ProviderMeta.candidate p ∈ produced)).
    + left. eauto.
    + right. intros (? & ? & ?). by simplify_eq.
  - right. intros (? & ? & ?). by simplify_eq.
Defined.

#[global] Instance passed_over_dec p : Decision (passed_over p).
Proof. unfold passed_over. apply _. Defined.

#[global] Instance reached_dec before : Decision (reached before).
Proof. unfold reached. apply _. Defined.
End vocabulary.

(** The registry after the read [KNOWN_CONTENT_TYPES[k]]. *)
Definition touch (k : string) (reg : registry) : registry :=
  (defaultdict_getitem k reg).2.

(** Two preferences that differ at most in quality and in parameters
    other than vendor and version. *)
Definition same_request (p1 p2 : AcceptPreference) : Prop :=
  media_type p1 = media_type p2
  ∧ params p1 !! "vendor" = params p2 !! "vendor"
  ∧ params p1 !! "version" = params p2 !! "version".

(** Every entry stored under key [k] pairs a content type of base media
    type [k] with a class that declares that very content type. *)
Definition registry_wf (reg : registry) : Prop :=
  ∀ k l ct cls, reg !! k = Some l → (ct, cls) ∈ l →
    CONTENT_TYPE cls = Some ct ∧ content_type ct = k.

(** What a process does to the registry: it creates classes under the
    metaclass and negotiates requests. *)
Inductive action : Type :=
| NewClass (name : string) (ct : option ContentType)
| Negotiate (accept_header : string) (handler : Handler).

Definition run_action (a : action) (reg : registry) : registry :=
  match a with
  | NewClass name ct => (ProviderMeta.__new__ name ct reg).2
  | Negotiate accept_header handler =>
      (ProviderMeta.map_provider accept_header handler reg).2
  end.

Definition run_actions (l : list action) (reg : registry) : registry :=
  foldl (λ r a, run_action a r) reg l.

(** The class object [__new__] builds for a class that declares a content
    type. *)
Definition new_class (name : string) (c : ContentType) : provider_class :=
  mkClass name (Some c) (bool_decide (name = "ProviderBase")).

(** How the loop ends on [accept], told from the first preference that
    is not passed over. *)
Inductive loop_end (prod : gmap string (gset ContentType)) (reg : registry)
    (accept : list AcceptPreference) : outcome provider_class → Prop :=
| end_selected before p rest t :
    accept = before ++ p :: rest → reached prod reg before →
    produces prod p → registered reg p = [t] →
    loop_end prod reg accept (Return t.2)
| end_unsupported before p rest :
    accept = before ++ p :: rest → reached prod reg before →
    prod !! media_type p = None →
    loop_end prod reg accept (Raise NoProviderFound)
| end_disallowed before p rest produced :
    accept = before ++ p :: rest → reached prod reg before →
    prod !! media_type p = Some produced →
    ProviderMeta.candidate p ∉ produced →
    loop_end prod reg accept (Raise NoProviderFound)
| end_exhausted :
    Forall (passed_over prod reg) accept →
    loop_end prod reg accept (Raise NoProviderFound).

(** ** Registries and handlers used in the examples *)

(** The registry once the module is imported. *)
Definition json_registry : registry :=
  (module_body ProviderMeta.KNOWN_CONTENT_TYPES).2.

(** A handler that provides the unversioned [application/json]. *)
Definition json_handler : Handler :=
  mkHandler {[ "application/json" := {[ application_json ]} ]}.

(** A second content type and a registry in which [application/json] is
    registered twice. *)
Definition application_xml : ContentType :=
  mkContentType "application/xml" None None.

Definition XmlProvider : provider_class :=
  mkClass "XmlProvider" (Some application_xml) false.

Definition crowded_registry : registry :=
  run_actions [NewClass "JsonProvider" (Some application_json);
               NewClass "JsonProvider2" (Some application_json);
               NewClass "XmlProvider" (Some application_xml)]
    ProviderMeta.KNOWN_CONTENT_TYPES.

Definition json_xml_handler : Handler :=
  mkHandler {[ "application/json" := {[ application_json ]};
               "application/xml" := {[ application_xml ]} ]}.

(** A handler for pages, for which the module registers no provider. *)
Definition text_html : ContentType := mkContentType "text/html" None None.

Definition html_handler : Handler :=
  mkHandler {[ "text/html" := {[ text_html ]} ]}.

(** ** [supercell.api.service] *)

Module Service.

(** [s.endswith('/')] *)
Definition endswith_sep (s : string) : bool :=
  match String.rev s with
  | String "/"%char _ => true
  | _ => false
  end.

(** [os.path.join(a, b)] as [posixpath] has it: an absolute [b] replaces
    [a]; otherwise [b] is put after [a], with a separator between them
    unless [a] is empty or ends with one. *)
Definition os_path_join (a b : string) : string :=
  if String.prefix "/" b then b
  else if bool_decide (a = "") || endswith_sep a then a +:+ b
  else a +:+ "/" +:+ b.

(** What the service reads of an [Environment] of
    [supercell.api.environment]: its attributes [config_name] and
    [config_file_paths]. *)
Record Environment : Type := mkEnvironment {
  config_name : string;
  config_file_paths : list string
}.

(** A handler of the root logger: an instance of
    [SupercellLoggingHandler], made for a log file, or of another
    class. *)
Inductive handler : Type :=
| SupercellLoggingHandler (logfile : string)
| OtherHandler (name : string).

(** [isinstance(h, SupercellLoggingHandler)] *)
Definition is_supercell_handler (h : handler) : bool :=
  match h with
  | SupercellLoggingHandler _ => true
  | OtherHandler _ => false
  end.

(** The calls into [tornado.options], in the order they are made. *)
Inductive call : Type :=
| ParseConfigFile (path : string)
| ParseCommandLine.

(** The attributes a [Service] instance gets from its properties; [None]
    is an attribute that is not there ([hasattr] is false).  [_config]
    refers to the module-level [tornado.options.options], whose state is
    in the world. *)
Record instance : Type := mkInstance {
  _slog : option string;
  _environment : option Environment;
  _config : option ()
}.

(** What a call into [tornado.options] works on: the options, and the
    root logger, whose level the parse callbacks of tornado
    ([enable_pretty_logging]) set and to which they add handlers. *)
Record process (Options : Type) : Type := mkProcess {
  process_options : Options;
  process_level : option string;
  process_handlers : list handler
}.
Arguments mkProcess {Options} _ _ _.
Arguments process_options {Options} _.
Arguments process_level {Options} _.
Arguments process_handlers {Options} _.

(** The libraries the service calls.  What tornado does with a file or
    with the command line, to the options and to the root logger, which
    levels the root logger takes and which log files open is left to
    them: a call that may raise yields the error, if it raises.  The file
    system is taken as it is when the service starts. *)
Class Libraries (Options Err : Type) : Type := {
  (** [os.path.exists(path)] *)
  os_path_exists : string → bool;
  (** [tornado.options.parse_config_file(path)] *)
  tornado_parse_config_file :
    string → process Options → option Err * process Options;
  (** [tornado.options.parse_command_line()] *)
  tornado_parse_command_line :
    process Options → option Err * process Options;
  (** [options.loglevel] and [options.logfile] *)
  options_loglevel : Options → string;
  options_logfile : Options → string;
  (** [Environment()] *)
  new_Environment : Environment;
  (** [root.setLevel(level)] *)
  logging_setLevel_error : string → option Err;
  (** [SupercellLoggingHandler(logfile)] *)
  new_handler_error : string → option Err
}.

(** The state a service runs in: its own attributes, the options of
    tornado, the level and the handlers of the root logger, and the calls
    made into tornado so far. *)
Record world (Options : Type) : Type := mkWorld {
  self : instance;
  options : Options;
  root_level : option string;
  root_handlers : list handler;
  calls : list call
}.
Arguments mkWorld {Options} _ _ _ _ _.
Arguments self {Options} _.
Arguments options {Options} _.
Arguments root_level {Options} _.
Arguments root_handlers {Options} _.
Arguments calls {Options} _.

Inductive result (Err A : Type) : Type :=
| Done (a : A)
| Failed (e : Err).
Arguments Done {Err A} a.
Arguments Failed {Err A} e.

(** Computations of the service. *)
Definition S (Options Err A : Type) : Type :=
  world Options → result Err A * world Options.

#[global] Instance S_ret {Options Err} : MRet (S Options Err) :=
  λ A a w, (Done a, w).
#[global] Instance S_bind {Options Err} : MBind (S Options Err) :=
  λ A B k m w,
    match m w with
    | (Done a, w') => k a w'
    | (Failed e, w') => (Failed e, w')
    end.

(** The part of the world tornado works on. *)
Definition process_of {Options} (w : world Options) : process Options :=
  mkProcess (options w) (root_level w) (root_handlers w).
Arguments process_of : simpl never.

(** The error a computation ends with, if it does. *)
Definition error_of {Err A} (r : result Err A) : option Err :=
  match r with
  | Done _ => None
  | Failed e => Some e
  end.

Section service.
Context `{Libraries Options Err}.

(** [tornado.options.parse_config_file(cfg)] *)
Definition call_parse_config_file (cfg : string) : S Options Err () :=
  λ w,
    let '(e, p) := tornado_parse_config_file cfg (process_of w) in
    let w' := mkWorld (self w) (process_options p) (process_level p)
                (process_handlers p) (calls w ++ [ParseConfigFile cfg]) in
    match e with
    | Some err => (Failed err, w')
    | None => (Done (), w')
    end.

(** [tornado.options.parse_command_line()] *)
Definition call_parse_command_line : S Options Err () :=
  λ w,
    let '(e, p) := tornado_parse_command_line (process_of w) in
    let w' := mkWorld (self w) (process_options p) (process_level p)
                (process_handlers p) (calls w ++ [ParseCommandLine]) in
    match e with
    | Some err => (Failed err, w')
    | None => (Done (), w')
    end.

(** The property [Service.environment], lines 117-122. *)
Definition environment : S Options Err Environment :=
  λ w,
    match _environment (self w) with
    | Some env => (Done env, w)
    | None =>
        let env := new_Environment in
        (Done env,
         mkWorld (mkInstance (_slog (self w)) (Some env) (_config (self w)))
           (options w) (root_level w) (root_handlers w) (calls w))
    end.

(** The [for] loop of [parse_config_files], lines 153-160. *)
Fixpoint parse_config_files_loop (filename : string) (paths : list string)
  : S Options Err () :=
  match paths with
  | [] => mret ()
  | path :: paths' =>
      let cfg := os_path_join path "config.cfg" in
      _ ← (if os_path_exists cfg then call_parse_config_file cfg
           else mret ());
      let cfg := os_path_join path filename in
      _ ← (if os_path_exists cfg then call_parse_config_file cfg
           else mret ());
      parse_config_files_loop filename paths'
  end.

(** [Service.parse_config_files], lines 137-160. *)
Definition parse_config_files : S Options Err () :=
  env ← environment;
  let filename := config_name env in
  env ← environment;
  parse_config_files_loop filename (config_file_paths env).

(** [Service.parse_command_line], lines 162-165. *)
Definition parse_command_line : S Options Err () :=
  call_parse_command_line.

(** [self._config = options; return self._config] *)
Definition store_config : S Options Err Options :=
  λ w,
    (Done (options w),
     mkWorld (mkInstance (_slog (self w)) (_environment (self w)) (Some ()))
       (options w) (root_level w) (root_handlers w) (calls w)).

(** The property [Service.config], lines 124-135. *)
Definition config : S Options Err Options :=
  λ w,
    match _config (self w) with
    | Some _ => (Done (options w), w)
    | None =>
        (_ ← parse_config_files;
         _ ← parse_command_line;
         store_config) w
    end.

(** [root.setLevel(level)] *)
Definition root_setLevel (level : string) : S Options Err () :=
  λ w,
    match logging_setLevel_error level with
    | Some err => (Failed err, w)
    | None =>
        (Done (), mkWorld (self w) (options w) (Some level) (root_handlers w)
                    (calls w))
    end.

(** [root.addHandler(SupercellLoggingHandler(logfile))]: the handler is
    made, which may raise, and then added; a handler just made is not
    among the handlers of the logger, so it goes to the end of the
    list. *)
Definition root_addHandler_new (logfile : string) : S Options Err () :=
  λ w,
    match new_handler_error logfile with
    | Some err => (Failed err, w)
    | None =>
        (Done (), mkWorld (self w) (options w) (root_level w)
                    (root_handlers w ++ [SupercellLoggingHandler logfile])
                    (calls w))
    end.

(** [Service.initialize_logging], lines 167-180. *)
Definition initialize_logging : S Options Err () :=
  λ w,
    let hdlrs := filter (λ h, is_supercell_handler h) (root_handlers w) in
    if decide (length hdlrs = 0) then
      (cfg ← config;
       _ ← root_setLevel (options_loglevel cfg);
       cfg ← config;
       root_addHandler_new (options_logfile cfg)) w
    else (Done (), w).

(** [self._slog = logging.getLogger('supercell'); return self._slog] *)
Definition store_slog : S Options Err string :=
  λ w,
    (Done "supercell",
     mkWorld (mkInstance (Some "supercell") (_environment (self w))
                (_config (self w)))
       (options w) (root_level w) (root_handlers w) (calls w)).

(** The property [Service.slog], lines 109-115. *)
Definition slog : S Options Err string :=
  λ w,
    match _slog (self w) with
    | Some logger => (Done logger, w)
    | None => (_ ← initialize_logging; store_slog) w
    end.

(** The files [parse_config_files] looks for, in the order it does: for
    each path the general [config.cfg] and then the file named by the
    environment. *)
Definition config_file_candidates (env : Environment) : list string :=
  path ← config_file_paths env;
  [os_path_join path "config.cfg"; os_path_join path (config_name env)].

(** Those of them that exist. *)
Definition config_files_found (env : Environment) : list string :=
  filter (λ cfg, os_path_exists cfg) (config_file_candidates env).

(** The files of a list handed to tornado one after the other, up to the
    first that raises. *)
Fixpoint parse_each (files : list string) : S Options Err () :=
  match files with
  | [] => mret ()
  | cfg :: files' => _ ← call_parse_config_file cfg; parse_each files'
  end.

(** The environment of a service: the one it has, or the one it gets on
    first use. *)
Definition environment_of (w : world Options) : Environment :=
  default new_Environment (_environment (self w)).

(** The world once the service has its environment. *)
Definition with_environment (w : world Options) : world Options :=
  mkWorld (mkInstance (_slog (self w)) (Some (environment_of w))
             (_config (self w)))
    (options w) (root_level w) (root_handlers w) (calls w).

(** What tornado leaves of a process once it has parsed the files of a
    list, one after the other. *)
Definition process_after (files : list string) (p : process Options)
  : process Options :=
  foldl (λ q cfg, (tornado_parse_config_file cfg q).2) p files.

(** Whether tornado raises on [cfg] once it has parsed the files of
    [before], starting from [p]. *)
Definition raised (p : process Options) (before : list string)
    (cfg : string) : option Err :=
  (tornado_parse_config_file cfg (process_after before p)).1.

(** A tornado whose parsing takes no handler off the root logger and
    puts none of the class [SupercellLoggingHandler] on it: the handlers
    it adds come after those that are there. *)
Definition adds_other_handlers (p p' : process Options) : Prop :=
  ∃ more, process_handlers p' = process_handlers p ++ more
          ∧ Forall (λ h, is_supercell_handler h = false) more.

Definition tornado_adds_other_handlers : Prop :=
  (∀ cfg p, adds_other_handlers p (tornado_parse_config_file cfg p).2)
  ∧ (∀ p, adds_other_handlers p (tornado_parse_command_line p).2).

(** The number of [SupercellLoggingHandler]s on the root logger. *)
Definition supercell_handlers (w : world Options) : nat :=
  length (filter (λ h, is_supercell_handler h) (root_handlers w)).
End service.

(** What [enable_pretty_logging] does to the root logger with the
    default options: it sets the level and, when the logger has no
    handler, adds a stream handler. *)
Definition example_pretty_logging (o : list string) (p : process (list string))
  : process (list string) :=
  mkProcess o (Some "info")
    (process_handlers p
     ++ match process_handlers p with
        | [] => [OtherHandler "StreamHandler"]
        | _ => []
        end).

(** A file system and a tornado for the examples: the options are the
    list of the sources read so far, and [/etc/broken/config.cfg] does
    not parse. *)
Definition example_files : list string :=
  ["/etc/myservice/config.cfg"; "/etc/myservice/user_hostname.cfg";
   "./etc/user_hostname.cfg"; "/etc/broken/config.cfg"].

#[global] Instance example_libraries : Libraries (list string) string := {|
  os_path_exists path := bool_decide (path ∈ example_files);
  tornado_parse_config_file path p :=
    if bool_decide (path = "/etc/broken/config.cfg")
    then (Some "SyntaxError", p)
    else (None, example_pretty_logging (process_options p ++ [path]) p);
  tornado_parse_command_line p :=
    (None, example_pretty_logging (process_options p ++ ["argv"]) p);
  options_loglevel o := "INFO";
  options_logfile o := "root.log";
  new_Environment :=
    mkEnvironment "user_hostname.cfg" ["/etc/myservice"; "./etc/"];
  logging_setLevel_error level := None;
  new_handler_error logfile := None
|}.

(** A service just made, in a process that has read nothing and whose
    root logger has one handler of another class. *)
Definition fresh_world : world (list string) :=
  mkWorld (mkInstance None None None) [] None [OtherHandler "console"] [].

(** A service just made, in a process whose root logger has no handler. *)
Definition bare_world : world (list string) :=
  mkWorld (mkInstance None None None) [] None [] [].

(** The same service once its environment has been given a directory
    whose general configuration does not parse. *)
Definition broken_world : world (list string) :=
  mkWorld
    (mkInstance None
       (Some (mkEnvironment "user_hostname.cfg"
                ["/etc/myservice"; "/etc/broken"; "./etc/"]))
       None)
    [] None [OtherHandler "console"] [].

End Service.

(** ** The module body and the parser on examples *)

Example module_body_classes :
  (module_body ProviderMeta.KNOWN_CONTENT_TYPES).1
  = Return (ProviderBase, JsonProvider).
Proof. reflexivity. Qed.

Example parse_example :
  parse_accept_header "application/json;version=2, application/xml ; q=0.9"
  = [mkPref "application/json" {["version" := "2"]} 1%Q;
     mkPref "application/xml" ∅ (9 # 10)%Q].
Proof. vm_compute. reflexivity. Qed.

(** ** The default dict *)

Section defaultdict_facts.
Context {V : Type}.
Implicit Types (d : gmap string (list V)) (k : string).

Lemma getitem_value k d : (defaultdict_getitem k d).1 = entries d k.
Proof. unfold defaultdict_getitem, entries. by destruct (d !! k). Qed.

Lemma getitem_present k d :
  is_Some (d !! k) → (defaultdict_getitem k d).2 = d.
Proof. intros [l Hl]. unfold defaultdict_getitem. by rewrite Hl. Qed.

Lemma getitem_lookup k d k' :
  (defaultdict_getitem k d).2 !! k'
  = if decide (k = k') then Some (entries d k) else d !! k'.
Proof.
  unfold defaultdict_getitem, entries.
  destruct (d !! k) as [l|] eqn:Hk; simpl.
  - case_decide; by simplify_eq.
  - rewrite lookup_insert. by case_decide.
Qed.

Lemma getitem_entries k d k' :
  entries (defaultdict_getitem k d).2 k' = entries d k'.
Proof.
  unfold entries at 1. rewrite getitem_lookup.
  case_decide; by simplify_eq.
Qed.

Lemma getitem_subseteq k d : d ⊆ (defaultdict_getitem k d).2.
Proof.
  unfold defaultdict_getitem.
  destruct (d !! k) eqn:Hk; simpl; [done |].
  by apply insert_subseteq.
Qed.

Lemma append_lookup k x d k' :
  defaultdict_append k x d !! k'
  = if decide (k = k') then Some (entries d k ++ [x]) else d !! k'.
Proof.
  unfold defaultdict_append.
  destruct (defaultdict_getitem k d) as [l d'] eqn:Hg.
  assert (l = entries d k) as -> by (by rewrite <- getitem_value, Hg).
  assert (d' = (defaultdict_getitem k d).2) as -> by (by rewrite Hg).
  rewrite lookup_insert. case_decide; [done |].
  rewrite getitem_lookup. by case_decide.
Qed.
End defaultdict_facts.

(** ** The loop of [map_provider], one iteration at a time *)

Ltac unfold_py :=
  unfold mbind, M_bind, mret, M_ret, raise, known_content_types,
    known_content_types_append in *.

Section loop_facts.
Variable prod : gmap string (gset ContentType).
Implicit Types (reg : registry) (p : AcceptPreference)
  (accept rest : list AcceptPreference).

Lemma loop_nil reg :
  ProviderMeta.map_provider_loop prod [] reg = (Raise NoProviderFound, reg).
Proof. reflexivity. Qed.

Lemma loop_unsupported p rest reg :
  prod !! media_type p = None →
  ProviderMeta.map_provider_loop prod (p :: rest) reg
  = (Raise NoProviderFound, reg).
Proof. intros H. simpl. by rewrite H. Qed.

Lemma loop_disallowed p rest reg produced :
  prod !! media_type p = Some produced →
  ProviderMeta.candidate p ∉ produced →
  ProviderMeta.map_provider_loop prod (p :: rest) reg
  = (Raise NoProviderFound, reg).
Proof. intros H Hn. simpl. rewrite H. by rewrite decide_False. Qed.

(** Past both checks the body reads the registry and looks at the
    number of matches. *)
Lemma loop_produced p rest reg :
  produces prod p →
  ProviderMeta.map_provider_loop prod (p :: rest) reg
  = if decide (length (registered reg p) = 1)
    then (match registered reg p !! 0 with
          | Some t => Return t.2
          | None => Raise IndexError
          end, touch (media_type p) reg)
    else ProviderMeta.map_provider_loop prod rest (touch (media_type p) reg).
Proof.
  intros (produced & H & Hin). simpl. rewrite H.
  rewrite decide_True by done. unfold_py. unfold touch, registered.
  rewrite <- getitem_value.
  destruct (defaultdict_getitem (media_type p) reg) as [l reg']; simpl.
  case_decide; [| done]. by destruct (filter _ l !! 0).
Qed.

Lemma loop_unique p rest reg t :
  produces prod p →
  registered reg p = [t] →
  ProviderMeta.map_provider_loop prod (p :: rest) reg
  = (Return t.2, touch (media_type p) reg).
Proof. intros Hp Ht. rewrite loop_produced by done. by rewrite Ht. Qed.

Lemma loop_passed_over p rest reg :
  passed_over prod reg p →
  ProviderMeta.map_provider_loop prod (p :: rest) reg
  = ProviderMeta.map_provider_loop prod rest (touch (media_type p) reg).
Proof.
  intros [Hp Hn]. rewrite loop_produced by done. by rewrite decide_False.
Qed.

Lemma touch_entries k reg k' : entries (touch k reg) k' = entries reg k'.
Proof. apply getitem_entries. Qed.

Lemma registered_ext reg reg' p :
  (∀ k, entries reg k = entries reg' k) →
  registered reg p = registered reg' p.
Proof. intros H. unfold registered. by rewrite H. Qed.

Lemma passed_over_ext reg reg' p :
  (∀ k, entries reg k = entries reg' k) →
  passed_over prod reg p → passed_over prod reg' p.
Proof.
  intros H [Hp Hn]. split; [done |].
  by rewrite <- (registered_ext reg reg').
Qed.

(** The outcome depends on the registry through [entries] alone. *)
Lemma loop_outcome_ext accept reg reg' :
  (∀ k, entries reg k = entries reg' k) →
  (ProviderMeta.map_provider_loop prod accept reg).1
  = (ProviderMeta.map_provider_loop prod accept reg').1.
Proof.
  revert reg reg'. induction accept as [|p rest IH]; intros reg reg' H.
  - done.
  - destruct (decide (produces prod p)) as [Hp|Hp].
    + rewrite !loop_produced by done.
      rewrite <- (registered_ext reg reg') by done.
      case_decide; [done |].
      apply IH. intros k. by rewrite !touch_entries.
    + simpl. destruct (prod !! media_type p) as [produced|] eqn:Hl; [| done].
      case_decide; [| done]. destruct Hp. by exists produced.
Qed.

(** Negotiation leaves every list of entries as it was. *)
Lemma loop_entries accept reg k :
  entries (ProviderMeta.map_provider_loop prod accept reg).2 k
  = entries reg k.
Proof.
  revert reg. induction accept as [|p rest IH]; intros reg; [done |].
  destruct (decide (produces prod p)) as [Hp|Hp].
  - rewrite loop_produced by done. case_decide.
    + apply touch_entries.
    + by rewrite IH, touch_entries.
  - simpl. destruct (prod !! media_type p) as [produced|] eqn:Hl; [| done].
    case_decide; [| done]. destruct Hp. by exists produced.
Qed.

Lemma loop_subseteq accept reg :
  reg ⊆ (ProviderMeta.map_provider_loop prod accept reg).2.
Proof.
  revert reg. induction accept as [|p rest IH]; intros reg; [done |].
  destruct (decide (produces prod p)) as [Hp|Hp].
  - rewrite loop_produced by done. case_decide.
    + apply getitem_subseteq.
    + etrans; [| apply IH]. apply getitem_subseteq.
  - simpl. destruct (prod !! media_type p) as [produced|] eqn:Hl; [| done].
    case_decide; [| done]. destruct Hp. by exists produced.
Qed.

(** Preferences that are passed over do not bear on the outcome. *)
Lemma loop_reached before rest reg :
  reached prod reg before →
  (ProviderMeta.map_provider_loop prod (before ++ rest) reg).1
  = (ProviderMeta.map_provider_loop prod rest reg).1.
Proof.
  unfold reached. revert reg.
  induction before as [|p before IH]; intros reg Hb; [done |].
  apply Forall_cons in Hb as [Hp Hb]. simpl app.
  rewrite loop_passed_over by done.
  rewrite IH.
  - apply loop_outcome_ext. intros k. apply touch_entries.
  - eapply Forall_impl; [exact Hb |]. intros q.
    apply passed_over_ext. intros k. by rewrite touch_entries.
Qed.
End loop_facts.

(** ** The parser and the entry point *)

Lemma split_on_nonempty sep s : split_on sep s ≠ [].
Proof.
  destruct s as [|c s]; simpl; [done |].
  case_decide; [done |]. by destruct (split_on sep s).
Qed.

Lemma parse_accept_header_nil header :
  parse_accept_header header = [] ↔ header = "".
Proof.
  unfold parse_accept_header. case_decide as H; [done |].
  split; [| done]. intros Hnil.
  apply fmap_nil_inv in Hnil. by apply split_on_nonempty in Hnil.
Qed.

Lemma length_zero_empty (s : string) : String.length s = 0 ↔ s = "".
Proof. by destruct s. Qed.

Lemma map_provider_empty handler reg :
  ProviderMeta.map_provider "" handler reg = (Raise NoProviderFound, reg).
Proof. reflexivity. Qed.

Lemma map_provider_nonempty header handler reg :
  header ≠ "" →
  ProviderMeta.map_provider header handler reg
  = ProviderMeta.map_provider_loop (_PROD_CONTENT_TYPES handler)
      (parse_accept_header header) reg.
Proof.
  intros H. unfold ProviderMeta.map_provider.
  rewrite decide_False; [done |]. by rewrite length_zero_empty.
Qed.

Lemma map_provider_parsed header handler reg p accept :
  parse_accept_header header = p :: accept →
  ProviderMeta.map_provider header handler reg
  = ProviderMeta.map_provider_loop (_PROD_CONTENT_TYPES handler)
      (p :: accept) reg.
Proof.
  intros H. rewrite map_provider_nonempty; [by rewrite H |].
  intros ->. done.
Qed.

Lemma map_provider_parsed_app header handler reg before p rest :
  parse_accept_header header = before ++ p :: rest →
  ProviderMeta.map_provider header handler reg
  = ProviderMeta.map_provider_loop (_PROD_CONTENT_TYPES handler)
      (before ++ p :: rest) reg.
Proof.
  intros H. rewrite map_provider_nonempty; [by rewrite H |].
  intros ->. by destruct before.
Qed.

Example json_registry_contents :
  json_registry = {[ "application/json" := [(application_json, JsonProvider)] ]}.
Proof. reflexivity. Qed.

(** ** Selection and failure *)

(** C1: a preference reached by the loop whose media type is a key of
    the handler's mapping, whose candidate content type is in the set
    allowed for it, and for which exactly one registry entry of that
    media type carries the candidate, ends the negotiation with that
    entry's provider; stated for the loop over any parsed header and for
    [map_provider] over any raw header that parses to it. *)
Theorem unique_match_is_selected (handler : Handler) (reg : registry)
    (before : list AcceptPreference) (p : AcceptPreference)
    (rest : list AcceptPreference) (produced : gset ContentType)
    (t : ContentType * provider_class) :
  reached (_PROD_CONTENT_TYPES handler) reg before →
  _PROD_CONTENT_TYPES handler !! media_type p = Some produced →
  ProviderMeta.candidate p ∈ produced →
  filter (λ e, e.1 = ProviderMeta.candidate p) (entries reg (media_type p))
    = [t] →
  (ProviderMeta.map_provider_loop (_PROD_CONTENT_TYPES handler)
     (before ++ p :: rest) reg).1 = Return t.2
  ∧ ∀ header, parse_accept_header header = before ++ p :: rest →
      (ProviderMeta.map_provider header handler reg).1 = Return t.2.
Proof.
  intros Hb Hk Hin Hone.
  assert ((ProviderMeta.map_provider_loop (_PROD_CONTENT_TYPES handler)
             (before ++ p :: rest) reg).1 = Return t.2) as Hloop.
  { rewrite loop_reached by done.
    rewrite (loop_unique _ p rest reg t); [done | by exists produced | done]. }
  split; [done |]. intros header Hparse.
  by rewrite (map_provider_parsed_app _ _ _ _ _ _ Hparse).
Qed.

(** The example of C1: with only [JsonProvider] registered and a handler
    that allows the plain [application/json], the header
    [application/json] selects [JsonProvider]. *)
Lemma unique_match_is_selected_witness :
  (ProviderMeta.map_provider "application/json" json_handler json_registry).1
  = Return JsonProvider.
Proof.
  refine (proj2 (unique_match_is_selected json_handler json_registry []
                   (mkPref "application/json" ∅ 1%Q) []
                   {[ application_json ]} (application_json, JsonProvider)
                   _ _ _ _) "application/json" _).
  - constructor.
  - reflexivity.
  - by apply elem_of_singleton.
  - reflexivity.
  - vm_compute. reflexivity.
Defined.

(** C2: when the media type of the first preference is not a key of the
    handler's mapping, negotiation raises [NoProviderFound] at once and
    leaves the registry alone, whatever preferences follow. *)
Theorem unsupported_first_media_type_aborts (handler : Handler)
    (reg : registry) (p : AcceptPreference) (rest : list AcceptPreference) :
  _PROD_CONTENT_TYPES handler !! media_type p = None →
  ProviderMeta.map_provider_loop (_PROD_CONTENT_TYPES handler) (p :: rest) reg
    = (Raise NoProviderFound, reg)
  ∧ ∀ header, parse_accept_header header = p :: rest →
      ProviderMeta.map_provider header handler reg
      = (Raise NoProviderFound, reg).
Proof.
  intros Hk. split; [by apply loop_unsupported |].
  intros header Hparse.
  rewrite (map_provider_parsed _ _ _ _ _ Hparse). by apply loop_unsupported.
Qed.

(** The example of C2: [application/xml, application/json] fails with a
    handler that allows [application/json] only, although the second
    entry alone is served by [JsonProvider]. *)
Lemma unsupported_first_media_type_aborts_witness :
  (ProviderMeta.map_provider "application/json" json_handler json_registry).1
    = Return JsonProvider
  ∧ ProviderMeta.map_provider "application/xml, application/json"
      json_handler json_registry
    = (Raise NoProviderFound, json_registry).
Proof.
  split; [vm_compute; reflexivity |].
  refine (proj2 (unsupported_first_media_type_aborts json_handler
                   json_registry (mkPref "application/xml" ∅ 1%Q)
                   [mkPref "application/json" ∅ 1%Q] _)
            "application/xml, application/json" _).
  - reflexivity.
  - vm_compute. reflexivity.
Defined.

(** C3: the empty raw header makes negotiation raise [NoProviderFound],
    for every handler and every registry. *)
Theorem empty_header_fails (handler : Handler) (reg : registry) :
  ProviderMeta.map_provider "" handler reg = (Raise NoProviderFound, reg).
Proof. apply map_provider_empty. Qed.

(** C4: a reached preference whose media type is a key of the handler's
    mapping but whose candidate content type is not in the set allowed
    for it makes negotiation raise [NoProviderFound], whatever
    preferences follow. *)
Theorem disallowed_candidate_aborts (handler : Handler) (reg : registry)
    (before : list AcceptPreference) (p : AcceptPreference)
    (rest : list AcceptPreference) (produced : gset ContentType) :
  reached (_PROD_CONTENT_TYPES handler) reg before →
  _PROD_CONTENT_TYPES handler !! media_type p = Some produced →
  mkContentType (media_type p) (params p !! "vendor") (params p !! "version")
    ∉ produced →
  (ProviderMeta.map_provider_loop (_PROD_CONTENT_TYPES handler)
     (before ++ p :: rest) reg).1 = Raise NoProviderFound
  ∧ ∀ header, parse_accept_header header = before ++ p :: rest →
      (ProviderMeta.map_provider header handler reg).1 = Raise NoProviderFound.
Proof.
  intros Hb Hk Hnin.
  assert ((ProviderMeta.map_provider_loop (_PROD_CONTENT_TYPES handler)
             (before ++ p :: rest) reg).1 = Raise NoProviderFound) as Hloop.
  { rewrite loop_reached by done.
    by rewrite (loop_disallowed _ p rest reg produced). }
  split; [done |]. intros header Hparse.
  by rewrite (map_provider_parsed_app _ _ _ _ _ _ Hparse).
Qed.

(** The example of C4: [application/json;version=2] against the handler
    that allows the unversioned [application/json] only. *)
Lemma disallowed_candidate_aborts_witness :
  (ProviderMeta.map_provider "application/json;version=2"
     json_handler json_registry).1 = Raise NoProviderFound.
Proof.
  refine (proj2 (disallowed_candidate_aborts json_handler json_registry []
                   (mkPref "application/json" {[ "version" := "2" ]} 1%Q) []
                   {[ application_json ]} _ _ _)
            "application/json;version=2" _).
  - constructor.
  - reflexivity.
  - intros H%elem_of_singleton. discriminate H.
  - vm_compute. reflexivity.
Defined.

Lemma loop_exhausted prod reg accept :
  Forall (passed_over prod reg) accept →
  (ProviderMeta.map_provider_loop prod accept reg).1 = Raise NoProviderFound.
Proof.
  intros H. rewrite <- (app_nil_r accept). by rewrite loop_reached.
Qed.

(** C5: a preference that passes both handler checks and has no
    registry match, or more than one, does not end the negotiation: the
    loop goes on with the next preference, on the registry as the read of
    line 90 leaves it, and with the outcome the remaining preferences
    give.  When every preference is passed over in this way the
    negotiation raises [NoProviderFound]. *)
Theorem no_unique_match_tries_next (handler : Handler) (reg : registry) :
  (∀ p rest,
     produces (_PROD_CONTENT_TYPES handler) p →
     length (registered reg p) = 0 ∨ 1 < length (registered reg p) →
     ProviderMeta.map_provider_loop (_PROD_CONTENT_TYPES handler)
       (p :: rest) reg
     = ProviderMeta.map_provider_loop (_PROD_CONTENT_TYPES handler)
         rest (touch (media_type p) reg)
     ∧ (ProviderMeta.map_provider_loop (_PROD_CONTENT_TYPES handler)
          (p :: rest) reg).1
       = (ProviderMeta.map_provider_loop (_PROD_CONTENT_TYPES handler)
            rest reg).1
     ∧ ∀ header, parse_accept_header header = p :: rest →
         (ProviderMeta.map_provider header handler reg).1
         = (ProviderMeta.map_provider_loop (_PROD_CONTENT_TYPES handler)
              rest reg).1)
  ∧ (∀ accept,
       Forall (passed_over (_PROD_CONTENT_TYPES handler) reg) accept →
       (ProviderMeta.map_provider_loop (_PROD_CONTENT_TYPES handler)
          accept reg).1 = Raise NoProviderFound
       ∧ ∀ header, parse_accept_header header = accept →
           (ProviderMeta.map_provider header handler reg).1
           = Raise NoProviderFound).
Proof.
  split.
  - intros p rest Hp Hn.
    assert (passed_over (_PROD_CONTENT_TYPES handler) reg p) as Hpo
      by (split; [done | lia]).
    assert ((ProviderMeta.map_provider_loop (_PROD_CONTENT_TYPES handler)
               (p :: rest) reg).1
            = (ProviderMeta.map_provider_loop (_PROD_CONTENT_TYPES handler)
                 rest reg).1) as Hout.
    { apply (loop_reached _ [p] rest reg). by constructor. }
    split_and!; [by apply loop_passed_over | done |].
    intros header Hparse. by rewrite (map_provider_parsed _ _ _ _ _ Hparse).
  - intros accept Hall.
    split; [by apply loop_exhausted |].
    intros header Hparse. destruct (decide (header = "")) as [-> | Hne].
    + done.
    + rewrite map_provider_nonempty by done. rewrite Hparse.
      by apply loop_exhausted.
Qed.

(** An instance of C5: with [application/json] registered twice the
    first entry of [application/json, application/xml] is ambiguous and
    the second one is served; [application/json] alone exhausts the
    header. *)
Lemma no_unique_match_tries_next_witness :
  (ProviderMeta.map_provider "application/json, application/xml"
     json_xml_handler crowded_registry).1 = Return XmlProvider
  ∧ (ProviderMeta.map_provider "application/json"
       json_xml_handler crowded_registry).1 = Raise NoProviderFound.
Proof.
  pose proof (no_unique_match_tries_next json_xml_handler crowded_registry)
    as [Hnext Hend].
  split.
  - destruct (Hnext (mkPref "application/json" ∅ 1%Q)
                [mkPref "application/xml" ∅ 1%Q]) as (_ & _ & H).
    + exists {[ application_json ]}. split; [reflexivity |].
      by apply elem_of_singleton.
    + right. vm_compute. lia.
    + rewrite (H "application/json, application/xml");
        vm_compute; reflexivity.
  - destruct (Hend [mkPref "application/json" ∅ 1%Q]) as [_ H].
    + constructor; [| constructor]. split.
      * exists {[ application_json ]}. split; [reflexivity |].
        by apply elem_of_singleton.
      * vm_compute. lia.
    + apply H. vm_compute. reflexivity.
Defined.

(** ** Registration *)

Lemma new_with_content_type name c reg :
  ProviderMeta.__new__ name (Some c) reg
  = (Return (new_class name c),
     defaultdict_append (content_type c) (c, new_class name c) reg).
Proof. reflexivity. Qed.

Lemma new_without_content_type name reg :
  ProviderMeta.__new__ name None reg = (Return (mkClass name None false), reg).
Proof. reflexivity. Qed.

(** C6: creating a provider class with content type [c] appends the pair
    of [c] and the class to the list kept under the base media type of
    [c] and touches no other key; a second class with an equal content
    type is appended after the first, so both entries are in the list in
    the order of registration. *)
Theorem registration_appends (name1 name2 : string) (c : ContentType)
    (reg : registry) :
  let reg1 := (ProviderMeta.__new__ name1 (Some c) reg).2 in
  let reg2 := (ProviderMeta.__new__ name2 (Some c) reg1).2 in
  (ProviderMeta.__new__ name1 (Some c) reg).1 = Return (new_class name1 c)
  ∧ reg1 !! content_type c
    = Some (entries reg (content_type c) ++ [(c, new_class name1 c)])
  ∧ reg2 !! content_type c
    = Some (entries reg (content_type c)
            ++ [(c, new_class name1 c); (c, new_class name2 c)])
  ∧ ∀ k, k ≠ content_type c → reg1 !! k = reg !! k ∧ reg2 !! k = reg !! k.
Proof.
  intros reg1 reg2. subst reg1 reg2. rewrite !new_with_content_type. simpl.
  split_and!.
  - done.
  - rewrite append_lookup. by rewrite decide_True.
  - rewrite append_lookup, decide_True by done.
    unfold entries at 1. rewrite append_lookup, decide_True by done.
    simpl. by rewrite <- app_assoc.
  - intros k Hk. rewrite !append_lookup. by rewrite !decide_False.
Qed.

(** An instance of C6: [JsonProvider] declared twice. *)
Lemma registration_appends_witness :
  (ProviderMeta.__new__ "JsonProvider" (Some application_json)
     json_registry).2 !! "application/json"
  = Some [(application_json, JsonProvider); (application_json, JsonProvider)]
  ∧ (ProviderMeta.__new__ "JsonProvider" (Some application_json)
       json_registry).2 !! "application/xml" = None.
Proof.
  pose proof (registration_appends "JsonProvider" "JsonProvider"
                application_json ProviderMeta.KNOWN_CONTENT_TYPES)
    as (_ & _ & H2 & Hk).
  split.
  - exact H2.
  - destruct (Hk "application/xml") as [_ H]; [discriminate |]. exact H.
Defined.

(** ** The outcomes of a negotiation *)

Lemma loop_end_cons prod reg p accept o :
  passed_over prod reg p →
  loop_end prod reg accept o → loop_end prod reg (p :: accept) o.
Proof.
  intros Hp [before q rest t -> Hb Hq Ht | before q rest -> Hb Hq
            | before q rest produced -> Hb Hq Hn | Hall].
  - eapply (end_selected _ _ _ (p :: before)); [done | by constructor | done..].
  - eapply (end_unsupported _ _ _ (p :: before)); [done | by constructor | done].
  - eapply (end_disallowed _ _ _ (p :: before)); [done | by constructor | done..].
  - apply end_exhausted. by constructor.
Qed.

Lemma length_one_singleton {A} (l : list A) : length l = 1 → ∃ x, l = [x].
Proof. destruct l as [|x [|y l]]; try done. by exists x. Qed.

(** The loop always ends, in one of the four ways. *)
Lemma loop_ends prod reg accept :
  loop_end prod reg accept (ProviderMeta.map_provider_loop prod accept reg).1.
Proof.
  induction accept as [|p accept IH].
  - apply end_exhausted. constructor.
  - destruct (prod !! media_type p) as [produced|] eqn:Hk.
    2:{ rewrite loop_unsupported by done.
        apply (end_unsupported _ _ _ [] p accept); [done | constructor | done]. }
    destruct (decide (ProviderMeta.candidate p ∈ produced)) as [Hin|Hn].
    2:{ rewrite (loop_disallowed _ _ _ _ produced) by done.
        apply (end_disallowed _ _ _ [] p accept produced);
          [done | constructor | done..]. }
    assert (produces prod p) as Hp by (by exists produced).
    destruct (decide (length (registered reg p) = 1)) as [Hone|Hnone].
    + destruct (length_one_singleton _ Hone) as [t Ht].
      rewrite (loop_unique _ _ _ _ t) by done.
      apply (end_selected _ _ _ [] p accept t); [done | constructor | done..].
    + assert (passed_over prod reg p) as Hpo by done.
      change (p :: accept) with ([p] ++ accept) at 2.
      rewrite (loop_reached prod [p] accept reg) by (by constructor).
      by apply loop_end_cons.
Qed.

(** C7: negotiation returns a provider or raises [NoProviderFound], and
    nothing else; it raises exactly when the header is empty, or a
    reached preference names a media type the handler does not produce,
    or a reached preference has a candidate content type outside the
    handler's set for it, or every preference is passed over for want of
    a unique registry match.  The exception is the same value in all four
    cases. *)
Theorem single_failure_kind (header : string) (handler : Handler)
    (reg : registry) :
  let prod := _PROD_CONTENT_TYPES handler in
  let accept := parse_accept_header header in
  let out := (ProviderMeta.map_provider header handler reg).1 in
  ((∃ cls, out = Return cls) ∨ out = Raise NoProviderFound)
  ∧ (out = Raise NoProviderFound ↔
       header = ""
       ∨ (∃ before p rest,
            accept = before ++ p :: rest ∧ reached prod reg before
            ∧ prod !! media_type p = None)
       ∨ (∃ before p rest produced,
            accept = before ++ p :: rest ∧ reached prod reg before
            ∧ prod !! media_type p = Some produced
            ∧ ProviderMeta.candidate p ∉ produced)
       ∨ Forall (passed_over prod reg) accept).
Proof.
  intros prod accept out. subst out.
  destruct (decide (header = "")) as [-> | Hne].
  { rewrite map_provider_empty. simpl. split; [by right |].
    split; [by left | done]. }
  rewrite map_provider_nonempty by done. fold prod accept.
  pose proof (loop_ends prod reg accept) as Hend.
  split.
  - inversion Hend; eauto.
  - split.
    + intros Hraise. rewrite Hraise in Hend.
      inversion Hend as [| before p rest Ha Hb Hk | before p rest produced
                         Ha Hb Hk Hn | Hall].
      * right. left. by exists before, p, rest.
      * right. right. left. by exists before, p, rest, produced.
      * by right; right; right.
    + intros [? | [(before & p & rest & -> & Hb & Hk)
               | [(before & p & rest & produced & -> & Hb & Hk & Hn) | Hall]]].
      * done.
      * rewrite loop_reached by done. by rewrite loop_unsupported.
      * rewrite loop_reached by done.
        by rewrite (loop_disallowed _ _ _ _ produced).
      * by apply loop_exhausted.
Qed.

(** An instance of C7: [application/xml] is not produced by the JSON
    handler. *)
Lemma single_failure_kind_witness :
  (ProviderMeta.map_provider "application/xml" json_handler json_registry).1
  = Raise NoProviderFound.
Proof.
  apply (single_failure_kind "application/xml" json_handler json_registry).
  right. left. exists [], (mkPref "application/xml" ∅ 1%Q), [].
  split_and!; [vm_compute; reflexivity | constructor | reflexivity].
Defined.

(** ** Negotiation and the state of the registry *)

Lemma loop_not_produced prod p rest reg :
  ¬ produces prod p →
  ProviderMeta.map_provider_loop prod (p :: rest) reg
  = (Raise NoProviderFound, reg).
Proof.
  intros Hp. simpl.
  destruct (prod !! media_type p) as [produced|] eqn:Hk; [| done].
  case_decide; [| done]. destruct Hp. by exists produced.
Qed.

Lemma touch_present k (reg : registry) :
  is_Some (reg !! k) → touch k reg = reg.
Proof. apply getitem_present. Qed.

Lemma touch_lookup_self k (reg : registry) : is_Some (touch k reg !! k).
Proof. unfold touch. rewrite getitem_lookup, decide_True by done. eauto. Qed.

(** A registry that already holds every key the loop would store is left
    as it is. *)
Lemma loop_absorb prod accept (reg reg' : registry) :
  (∀ k, entries reg k = entries reg' k) →
  (∀ k, is_Some ((ProviderMeta.map_provider_loop prod accept reg).2 !! k) →
        is_Some (reg' !! k)) →
  ProviderMeta.map_provider_loop prod accept reg'
  = ((ProviderMeta.map_provider_loop prod accept reg).1, reg').
Proof.
  revert reg. induction accept as [|p rest IH]; intros reg He Hd; [done |].
  destruct (decide (produces prod p)) as [Hp|Hp].
  2:{ by rewrite !loop_not_produced. }
  rewrite loop_produced in Hd by done. rewrite !loop_produced by done.
  rewrite <- (registered_ext reg reg') by done.
  assert (touch (media_type p) reg' = reg') as Ht.
  { apply touch_present, Hd. case_decide.
    - apply touch_lookup_self.
    - eapply lookup_weaken_is_Some; [apply touch_lookup_self |].
      apply loop_subseteq. }
  rewrite Ht. case_decide; [done |].
  apply IH; [| done]. intros k. by rewrite touch_entries.
Qed.

Lemma loop_stable prod accept (reg : registry) :
  let r := ProviderMeta.map_provider_loop prod accept reg in
  ProviderMeta.map_provider_loop prod accept r.2 = r.
Proof.
  intros r. subst r.
  rewrite (loop_absorb prod accept reg); [by destruct (_ _ _ reg) | | done].
  intros k. by rewrite loop_entries.
Qed.

Lemma loop_lookup prod accept (reg : registry) k :
  let reg' := (ProviderMeta.map_provider_loop prod accept reg).2 in
  reg' !! k = reg !! k ∨ (reg !! k = None ∧ reg' !! k = Some []).
Proof.
  intros reg'. pose proof (loop_entries prod accept reg k) as He.
  pose proof (loop_subseteq prod accept reg) as Hs. fold reg' in He, Hs.
  unfold entries in He.
  destruct (reg !! k) as [l|] eqn:Hk.
  - left. by eapply lookup_weaken.
  - destruct (reg' !! k) as [l'|]; [| by left]. right. by simplify_eq/=.
Qed.

Lemma touch_lookup k (reg : registry) k' :
  is_Some (touch k reg !! k') → is_Some (reg !! k') ∨ k' = k.
Proof.
  unfold touch. rewrite getitem_lookup. case_decide; [by right | by left].
Qed.

Lemma loop_keys prod accept (reg : registry) k :
  is_Some ((ProviderMeta.map_provider_loop prod accept reg).2 !! k) →
  is_Some (reg !! k)
  ∨ ∃ p, p ∈ accept ∧ media_type p = k ∧ produces prod p.
Proof.
  revert reg. induction accept as [|p rest IH]; intros reg; [by left |].
  destruct (decide (produces prod p)) as [Hp|Hp].
  - rewrite loop_produced by done.
    assert (is_Some (touch (media_type p) reg !! k) →
            is_Some (reg !! k)
            ∨ ∃ q, q ∈ p :: rest ∧ media_type q = k ∧ produces prod q)
      as Htouch.
    { intros [? | ->]%touch_lookup; [by left |].
      right. exists p. split_and!; [left | done..]. }
    case_decide; [by apply Htouch |].
    intros [Hk | (q & Hq & Hm & Hpq)]%IH; [by apply Htouch |].
    right. exists q. split_and!; [by right | done..].
  - rewrite loop_not_produced by done. by left.
Qed.

(** C8, as the code has it: negotiation does write to the registry.  An
    allowed media type that has no key in [KNOWN_CONTENT_TYPES] gets one,
    with an empty list, from the read of line 90. *)
Lemma negotiation_stores_key :
  json_registry !! "text/html" = None
  ∧ ProviderMeta.map_provider "text/html" html_handler json_registry
    = (Raise NoProviderFound, <[ "text/html" := [] ]> json_registry)
  ∧ (ProviderMeta.map_provider "text/html" html_handler json_registry).2
    ≠ json_registry.
Proof.
  split_and!.
  - reflexivity.
  - vm_compute. reflexivity.
  - intros H. apply (f_equal (λ r : registry, r !! "text/html")) in H.
    vm_compute in H. discriminate H.
Qed.

(** C8, amended: a second negotiation with the same header and handler,
    run on the registry the first one leaves, has the same outcome and
    changes nothing; the outcome is the same on every registry that has
    the same entries for each media type; and a negotiation keeps the
    entries of every media type, the one change it can make being a new
    key with an empty list, for a media type that had no key, that the
    header asks for and whose candidate content type passes both checks
    of the handler. *)
Theorem negotiation_repeatable (header : string) (handler : Handler)
    (reg : registry) :
  let first := ProviderMeta.map_provider header handler reg in
  ProviderMeta.map_provider header handler first.2 = first
  ∧ (∀ reg' : registry,
       (∀ k, entries reg' k = entries reg k) →
       (ProviderMeta.map_provider header handler reg').1 = first.1)
  ∧ (∀ k, entries first.2 k = entries reg k)
  ∧ (∀ k, first.2 !! k = reg !! k
          ∨ (reg !! k = None ∧ first.2 !! k = Some []
             ∧ ∃ p produced,
                 p ∈ parse_accept_header header ∧ media_type p = k
                 ∧ _PROD_CONTENT_TYPES handler !! media_type p = Some produced
                 ∧ mkContentType (media_type p) (params p !! "vendor")
                     (params p !! "version") ∈ produced)).
Proof.
  intros first. subst first.
  destruct (decide (header = "")) as [-> | Hne].
  { rewrite !map_provider_empty. simpl. split_and!; [done.. |].
    intros k. by left. }
  rewrite !map_provider_nonempty by done.
  split_and!.
  - apply loop_stable.
  - intros reg' He. rewrite map_provider_nonempty by done.
    by apply loop_outcome_ext.
  - intros k. apply loop_entries.
  - intros k.
    destruct (loop_lookup (_PROD_CONTENT_TYPES handler)
                (parse_accept_header header) reg k) as [Hsame | [Hnone Hnew]];
      [by left |].
    right. split_and!; [done.. |].
    destruct (loop_keys (_PROD_CONTENT_TYPES handler)
                (parse_accept_header header) reg k)
      as [[l Hl] | (p & Hp & Hk & produced & Hprod & Hin)].
    + rewrite Hnew. eauto.
    + by rewrite Hnone in Hl.
    + by exists p, produced.
Qed.

(** An instance of C8: the page request of the counterexample, twice. *)
Lemma negotiation_repeatable_witness :
  let first :=
    ProviderMeta.map_provider "text/html" html_handler json_registry in
  ProviderMeta.map_provider "text/html" html_handler first.2 = first
  ∧ (ProviderMeta.map_provider "text/html" html_handler
       (<[ "text/html" := [] ]> json_registry)).1 = first.1.
Proof.
  intros first.
  pose proof (negotiation_repeatable "text/html" html_handler json_registry)
    as (Hagain & Hext & _).
  split; [exact Hagain |].
  apply Hext. intros k. unfold entries. rewrite lookup_insert.
  case_decide; [by subst k | done].
Defined.

(** ** Quality values *)

Lemma candidate_same_request p1 p2 :
  same_request p1 p2 → ProviderMeta.candidate p1 = ProviderMeta.candidate p2.
Proof.
  intros (Hm & Hven & Hver). unfold ProviderMeta.candidate.
  by rewrite Hm, Hven, Hver.
Qed.

Lemma loop_same_request prod accept1 accept2 (reg : registry) :
  Forall2 same_request accept1 accept2 →
  ProviderMeta.map_provider_loop prod accept1 reg
  = ProviderMeta.map_provider_loop prod accept2 reg.
Proof.
  intros H. revert reg.
  induction H as [|p1 p2 rest1 rest2 Hp _ IH]; intros reg; [done |].
  pose proof (candidate_same_request _ _ Hp) as Hc.
  destruct Hp as (Hm & _). simpl. rewrite Hm, Hc.
  destruct (prod !! media_type p2) as [produced|]; [| done].
  case_decide; [| done]. unfold_py.
  destruct (defaultdict_getitem (media_type p2) reg) as [known reg'].
  case_decide; [done |]. apply IH.
Qed.

(** C9: two parsed headers of equal length whose entries agree, in
    order, on the media type and on the vendor and version parameters
    give the same result, whatever their quality values and other
    parameters: the same outcome and the same registry afterwards, for
    the loop and, when they are the parses of two raw headers, for
    [map_provider]. *)
Theorem quality_is_ignored (handler : Handler) (reg : registry)
    (accept1 accept2 : list AcceptPreference) :
  Forall2 same_request accept1 accept2 →
  ProviderMeta.map_provider_loop (_PROD_CONTENT_TYPES handler) accept1 reg
  = ProviderMeta.map_provider_loop (_PROD_CONTENT_TYPES handler) accept2 reg
  ∧ ∀ header1 header2,
      parse_accept_header header1 = accept1 →
      parse_accept_header header2 = accept2 →
      ProviderMeta.map_provider header1 handler reg
      = ProviderMeta.map_provider header2 handler reg.
Proof.
  intros H. split; [by apply loop_same_request |].
  intros header1 header2 H1 H2.
  destruct (decide (header1 = "")) as [-> | Hne1].
  - rewrite <- H1 in H. apply Forall2_nil_inv_l in H.
    rewrite <- H2 in H. apply parse_accept_header_nil in H. by subst header2.
  - destruct (decide (header2 = "")) as [-> | Hne2].
    + rewrite <- H2 in H. apply Forall2_nil_inv_r in H.
      rewrite <- H1 in H. by apply parse_accept_header_nil in H.
    + rewrite !map_provider_nonempty by done. rewrite H1, H2.
      by apply loop_same_request.
Qed.

(** An instance of C9: the same two media types with other quality
    values. *)
Lemma quality_is_ignored_witness :
  ProviderMeta.map_provider "application/json;q=0.1, application/xml;q=0.9"
    json_xml_handler crowded_registry
  = ProviderMeta.map_provider "application/json, application/xml;q=0.3"
      json_xml_handler crowded_registry.
Proof.
  refine (proj2 (quality_is_ignored json_xml_handler crowded_registry
                   [mkPref "application/json" ∅ (1 # 10)%Q;
                    mkPref "application/xml" ∅ (9 # 10)%Q]
                   [mkPref "application/json" ∅ 1%Q;
                    mkPref "application/xml" ∅ (3 # 10)%Q] _) _ _ _ _).
  - repeat constructor.
  - vm_compute. reflexivity.
  - vm_compute. reflexivity.
Defined.

(** ** The registry invariant *)

Lemma map_provider_lookup header handler (reg : registry) k :
  let reg' := (ProviderMeta.map_provider header handler reg).2 in
  reg' !! k = reg !! k ∨ (reg !! k = None ∧ reg' !! k = Some []).
Proof.
  intros reg'. subst reg'. destruct (decide (header = "")) as [-> | Hne].
  - rewrite map_provider_empty. by left.
  - rewrite map_provider_nonempty by done. apply loop_lookup.
Qed.

Lemma registry_wf_empty : registry_wf ∅.
Proof. intros k l ct cls H. by rewrite lookup_empty in H. Qed.

Lemma registry_wf_new name ct reg :
  registry_wf reg → registry_wf (ProviderMeta.__new__ name ct reg).2.
Proof.
  intros Hwf. destruct ct as [c|]; [| done].
  rewrite new_with_content_type. simpl.
  intros k l ct cls Hl Hin. rewrite append_lookup in Hl.
  case_decide as Hk; [| by eapply Hwf].
  simplify_eq. apply elem_of_app in Hin as [Hin | Hin].
  - unfold entries in Hin.
    destruct (reg !! content_type c) as [l|] eqn:Hl; simpl in Hin.
    + by eapply Hwf.
    + by apply elem_of_nil in Hin.
  - apply list_elem_of_singleton in Hin. by simplify_eq.
Qed.

Lemma registry_wf_map_provider header handler reg :
  registry_wf reg →
  registry_wf (ProviderMeta.map_provider header handler reg).2.
Proof.
  intros Hwf k l ct cls Hl Hin.
  destruct (map_provider_lookup header handler reg k) as [He | [_ He]].
  - rewrite He in Hl. by eapply Hwf.
  - rewrite He in Hl. simplify_eq. by apply elem_of_nil in Hin.
Qed.

Lemma registry_wf_action a reg :
  registry_wf reg → registry_wf (run_action a reg).
Proof.
  destruct a; [apply registry_wf_new | apply registry_wf_map_provider].
Qed.

Lemma registry_wf_actions l reg :
  registry_wf reg → registry_wf (run_actions l reg).
Proof.
  revert reg. induction l as [|a l IH]; intros reg Hwf; [done |].
  apply IH. by apply registry_wf_action.
Qed.

(** C10: a class whose [CONTENT_TYPE] is [None] is not added to the
    registry, and the registry is well formed at every point of a run:
    each entry under key [k] pairs a content type whose base media type
    is [k] with a class whose declared content type is that value, hence
    not [None].  The registry starts well formed and every class
    creation and every negotiation keeps it so. *)
Theorem registry_stays_well_formed :
  (∀ name reg,
     ProviderMeta.__new__ name None reg = (Return (mkClass name None false), reg))
  ∧ registry_wf ProviderMeta.KNOWN_CONTENT_TYPES
  ∧ (∀ a reg, registry_wf reg → registry_wf (run_action a reg))
  ∧ (∀ actions k l ct cls,
       run_actions actions ProviderMeta.KNOWN_CONTENT_TYPES !! k = Some l →
       (ct, cls) ∈ l →
       CONTENT_TYPE cls = Some ct ∧ content_type ct = k).
Proof.
  split_and!.
  - done.
  - apply registry_wf_empty.
  - apply registry_wf_action.
  - intros actions. apply registry_wf_actions, registry_wf_empty.
Qed.

(** An instance of C10: the registry the module body leaves has no entry
    for [ProviderBase], and its entry is well formed. *)
Lemma registry_stays_well_formed_witness :
  json_registry !! "application/json"
  = Some [(application_json, JsonProvider)]
  ∧ CONTENT_TYPE JsonProvider = Some application_json
  ∧ content_type application_json = "application/json".
Proof.
  split; [reflexivity |].
  apply (proj2 (proj2 (proj2 registry_stays_well_formed))
           [NewClass "ProviderBase" None;
            NewClass "JsonProvider" (Some application_json)]
           "application/json" [(application_json, JsonProvider)]).
  - reflexivity.
  - by apply list_elem_of_singleton.
Defined.

(** ** More on selection *)

Lemma registered_singleton_fst reg p t :
  registered reg p = [t] → t.1 = ProviderMeta.candidate p.
Proof.
  intros H. assert (t ∈ registered reg p) as Hin by (rewrite H; left).
  unfold registered in Hin. by apply list_elem_of_filter in Hin as [? _].
Qed.

Lemma loop_end_selected_inv prod reg accept cls :
  loop_end prod reg accept (Return cls) →
  ∃ p, p ∈ accept ∧ produces prod p
       ∧ registered reg p = [(ProviderMeta.candidate p, cls)].
Proof.
  inversion 1 as [before p rest t Ha Hb Hp Ht Ho | | |]; subst.
  exists p. split_and!; [| done |].
  - apply elem_of_app. right. left.
  - rewrite Ht. f_equal. pose proof (registered_singleton_fst _ _ _ Ht).
    destruct t; by simplify_eq/=.
Qed.

Lemma map_provider_returns_nonempty header handler reg cls :
  (ProviderMeta.map_provider header handler reg).1 = Return cls →
  header ≠ "".
Proof. intros H ->. by rewrite map_provider_empty in H. Qed.

(** X1: a negotiation that returns a class returns a registered one: some
    preference of the header has a candidate content type that the
    handler produces and that is carried by exactly one entry under its
    media type, and the class is that entry's; in a well-formed registry
    the class declares that very content type. *)
Theorem selected_provider_is_registered (header : string) (handler : Handler)
    (reg : registry) (cls : provider_class) :
  (ProviderMeta.map_provider header handler reg).1 = Return cls →
  ∃ p produced,
    p ∈ parse_accept_header header
    ∧ _PROD_CONTENT_TYPES handler !! media_type p = Some produced
    ∧ ProviderMeta.candidate p ∈ produced
    ∧ filter (λ e, e.1 = ProviderMeta.candidate p) (entries reg (media_type p))
      = [(ProviderMeta.candidate p, cls)]
    ∧ (registry_wf reg → CONTENT_TYPE cls = Some (ProviderMeta.candidate p)).
Proof.
  intros Hret. pose proof (map_provider_returns_nonempty _ _ _ _ Hret) as Hne.
  rewrite map_provider_nonempty in Hret by done.
  pose proof (loop_ends (_PROD_CONTENT_TYPES handler) reg
                (parse_accept_header header)) as Hend.
  rewrite Hret in Hend.
  apply loop_end_selected_inv in Hend as (p & Hin & (produced & Hk & Hc) & Ht).
  exists p, produced. split_and!; try done.
  intros Hwf. unfold registered, entries in Ht.
  destruct (reg !! media_type p) as [l|] eqn:Hl; [| done].
  assert ((ProviderMeta.candidate p, cls) ∈ l) as Hel.
  { assert ((ProviderMeta.candidate p, cls)
            ∈ filter (λ t, t.1 = ProviderMeta.candidate p) l) as Hf
      by (simpl in Ht; rewrite Ht; left).
    by apply list_elem_of_filter in Hf as [_ ?]. }
  by destruct (Hwf _ _ _ _ Hl Hel).
Qed.

Lemma selected_provider_is_registered_witness :
  ∃ p produced,
    p ∈ parse_accept_header "application/json, application/xml"
    ∧ _PROD_CONTENT_TYPES json_xml_handler !! media_type p = Some produced
    ∧ ProviderMeta.candidate p ∈ produced
    ∧ filter (λ e, e.1 = ProviderMeta.candidate p)
        (entries crowded_registry (media_type p))
      = [(ProviderMeta.candidate p, XmlProvider)]
    ∧ (registry_wf crowded_registry
       → CONTENT_TYPE XmlProvider = Some (ProviderMeta.candidate p)).
Proof.
  apply (selected_provider_is_registered "application/json, application/xml"
           json_xml_handler crowded_registry XmlProvider).
  vm_compute. reflexivity.
Defined.

(** X2: a content type that is carried by more than one entry of its
    media type is never the one a negotiation selects: whatever class is
    returned was chosen for a candidate other than it. *)
Theorem duplicate_content_type_is_never_selected (header : string)
    (handler : Handler) (reg : registry) (c : ContentType)
    (cls : provider_class) :
  1 < length (filter (λ e, e.1 = c) (entries reg (content_type c))) →
  (ProviderMeta.map_provider header handler reg).1 = Return cls →
  ∃ p, p ∈ parse_accept_header header
       ∧ ProviderMeta.candidate p ≠ c
       ∧ filter (λ e, e.1 = ProviderMeta.candidate p)
           (entries reg (media_type p))
         = [(ProviderMeta.candidate p, cls)].
Proof.
  intros Hdup Hret.
  pose proof (map_provider_returns_nonempty _ _ _ _ Hret) as Hne.
  rewrite map_provider_nonempty in Hret by done.
  pose proof (loop_ends (_PROD_CONTENT_TYPES handler) reg
                (parse_accept_header header)) as Hend.
  rewrite Hret in Hend.
  apply loop_end_selected_inv in Hend as (p & Hin & _ & Ht).
  exists p. split_and!; [done | | done].
  intros <-. unfold registered in Ht. simpl in Hdup.
  rewrite Ht in Hdup. simpl in Hdup. lia.
Qed.

Lemma duplicate_content_type_is_never_selected_witness :
  ∃ p, p ∈ parse_accept_header "application/json, application/xml"
       ∧ ProviderMeta.candidate p ≠ application_json
       ∧ filter (λ e, e.1 = ProviderMeta.candidate p)
           (entries crowded_registry (media_type p))
         = [(ProviderMeta.candidate p, XmlProvider)].
Proof.
  apply (duplicate_content_type_is_never_selected
           "application/json, application/xml" json_xml_handler
           crowded_registry application_json XmlProvider).
  - vm_compute. lia.
  - vm_compute. reflexivity.
Defined.

(** ** More on the registry under negotiation and registration *)

Lemma loop_unchanged prod accept (reg : registry) :
  (∀ k, is_Some (prod !! k) → is_Some (reg !! k)) →
  (ProviderMeta.map_provider_loop prod accept reg).2 = reg.
Proof.
  intros Hkeys. induction accept as [|p rest IH]; [done |].
  destruct (decide (produces prod p)) as [Hp|Hp].
  - rewrite loop_produced by done.
    assert (touch (media_type p) reg = reg) as ->.
    { apply touch_present, Hkeys. destruct Hp as (produced & -> & _). eauto. }
    by case_decide.
  - by rewrite loop_not_produced.
Qed.

(** X3: when every media type the handler produces has a key in the
    registry, a negotiation leaves the registry exactly as it found it,
    whatever the header and whatever the outcome. *)
Theorem negotiation_keeps_registry (header : string) (handler : Handler)
    (reg : registry) :
  (∀ k, is_Some (_PROD_CONTENT_TYPES handler !! k) → is_Some (reg !! k)) →
  (ProviderMeta.map_provider header handler reg).2 = reg.
Proof.
  intros Hkeys. destruct (decide (header = "")) as [-> | Hne]; [done |].
  rewrite map_provider_nonempty by done. by apply loop_unchanged.
Qed.

Lemma negotiation_keeps_registry_witness :
  (ProviderMeta.map_provider "application/json;version=2, text/html"
     json_handler json_registry).2 = json_registry.
Proof.
  apply negotiation_keeps_registry. intros k [s Hk].
  unfold json_handler in Hk. simpl in Hk.
  apply lookup_singleton_Some in Hk as [<- _]. by eexists.
Defined.

(** X4: a key that a negotiation adds to the registry is the media type
    of a preference in the header whose candidate content type the
    handler produces; no other key appears. *)
Theorem negotiation_adds_requested_keys_only (header : string)
    (handler : Handler) (reg : registry) (k : string) :
  is_Some ((ProviderMeta.map_provider header handler reg).2 !! k) →
  is_Some (reg !! k)
  ∨ ∃ p, p ∈ parse_accept_header header ∧ media_type p = k
         ∧ produces (_PROD_CONTENT_TYPES handler) p.
Proof.
  destruct (decide (header = "")) as [-> | Hne]; [by left |].
  rewrite map_provider_nonempty by done. apply loop_keys.
Qed.

Lemma negotiation_adds_requested_keys_only_witness :
  is_Some (json_registry !! "text/html")
  ∨ ∃ p, p ∈ parse_accept_header "text/html" ∧ media_type p = "text/html"
         ∧ produces (_PROD_CONTENT_TYPES html_handler) p.
Proof.
  apply (negotiation_adds_requested_keys_only "text/html" html_handler
           json_registry "text/html").
  vm_compute. eauto.
Defined.

Lemma loop_outcome_local prod accept (reg reg' : registry) :
  (∀ p, p ∈ accept → registered reg p = registered reg' p) →
  (ProviderMeta.map_provider_loop prod accept reg).1
  = (ProviderMeta.map_provider_loop prod accept reg').1.
Proof.
  revert reg reg'. induction accept as [|p rest IH]; intros reg reg' H; [done |].
  destruct (decide (produces prod p)) as [Hp|Hp].
  - rewrite !loop_produced by done. rewrite <- (H p) by left.
    case_decide; [done |]. apply IH. intros q Hq.
    rewrite (registered_ext (touch (media_type p) reg) reg)
      by (intros k; apply touch_entries).
    rewrite (registered_ext (touch (media_type p) reg') reg')
      by (intros k; apply touch_entries).
    apply H. by right.
  - by rewrite !loop_not_produced.
Qed.

Lemma registered_append (reg : registry) c cls p :
  ProviderMeta.candidate p ≠ c →
  registered (defaultdict_append (content_type c) (c, cls) reg) p
  = registered reg p.
Proof.
  intros Hne. unfold registered. unfold entries at 1.
  rewrite append_lookup. case_decide as Hk; [| done].
  simpl. rewrite Hk, filter_app, filter_cons_False, filter_nil by done.
  by rewrite app_nil_r.
Qed.

(** X5: creating a provider class bears only on requests for its content
    type: a negotiation whose header has no preference with that
    candidate content type has the same outcome before and after the
    class is created. *)
Theorem registration_is_local (name : string) (ct : option ContentType)
    (header : string) (handler : Handler) (reg : registry) :
  (∀ p, p ∈ parse_accept_header header → Some (ProviderMeta.candidate p) ≠ ct) →
  (ProviderMeta.map_provider header handler
     (ProviderMeta.__new__ name ct reg).2).1
  = (ProviderMeta.map_provider header handler reg).1.
Proof.
  intros Hother. destruct ct as [c|]; [| done].
  destruct (decide (header = "")) as [-> | Hne]; [done |].
  rewrite !map_provider_nonempty by done. rewrite new_with_content_type.
  apply loop_outcome_local. intros p Hp. apply registered_append.
  intros Hc. apply (Hother p Hp). by rewrite Hc.
Qed.

Lemma registration_is_local_witness :
  (ProviderMeta.map_provider "application/xml" json_xml_handler
     (ProviderMeta.__new__ "JsonProvider2" (Some application_json)
        crowded_registry).2).1
  = (ProviderMeta.map_provider "application/xml" json_xml_handler
       crowded_registry).1.
Proof.
  apply registration_is_local. intros p Hp.
  assert (p = mkPref "application/xml" ∅ 1%Q) as ->.
  { change (parse_accept_header "application/xml")
      with [mkPref "application/xml" ∅ 1%Q] in Hp.
    by apply list_elem_of_singleton in Hp. }
  discriminate.
Defined.

Lemma entries_new_prefix name ct (reg : registry) k :
  entries reg k `prefix_of` entries (ProviderMeta.__new__ name ct reg).2 k.
Proof.
  destruct ct as [c|]; [| done]. rewrite new_with_content_type.
  unfold entries at 2. simpl. rewrite append_lookup.
  case_decide as Hk; [| done]. subst k. simpl. by apply prefix_app_r.
Qed.

Lemma entries_map_provider header handler (reg : registry) k :
  entries (ProviderMeta.map_provider header handler reg).2 k = entries reg k.
Proof.
  destruct (decide (header = "")) as [-> | Hne]; [done |].
  rewrite map_provider_nonempty by done. apply loop_entries.
Qed.

(** X6: nothing is ever taken out of the registry or moved in it: after
    any run of class creations and negotiations, the entries a media type
    had before are still there, in the same order, at the front of its
    list. *)
Theorem registry_entries_only_grow (actions : list action) (reg : registry)
    (k : string) :
  entries reg k `prefix_of` entries (run_actions actions reg) k.
Proof.
  revert reg. induction actions as [|a actions IH]; intros reg; [done |].
  etrans; [| apply IH]. destruct a as [name ct | header handler]; simpl.
  - apply entries_new_prefix.
  - by rewrite entries_map_provider.
Qed.

(** ** The service: reading the configuration *)

Import Service.

Ltac unfold_S :=
  unfold mbind, S_bind, mret, S_ret in *.

Section service_facts.
Context `{Libraries Options Err}.
Implicit Types (w : world Options) (files : list string).

Lemma call_parse_config_file_spec cfg w :
  let r := call_parse_config_file cfg w in
  calls r.2 = calls w ++ [ParseConfigFile cfg] ∧ self r.2 = self w
  ∧ process_of r.2 = (tornado_parse_config_file cfg (process_of w)).2
  ∧ error_of r.1 = (tornado_parse_config_file cfg (process_of w)).1.
Proof.
  unfold call_parse_config_file.
  destruct (tornado_parse_config_file cfg (process_of w)) as [[e|] [o l h]];
    by simpl.
Qed.

Lemma call_parse_command_line_spec w :
  let r := call_parse_command_line w in
  calls r.2 = calls w ++ [ParseCommandLine] ∧ self r.2 = self w
  ∧ process_of r.2 = (tornado_parse_command_line (process_of w)).2.
Proof.
  unfold call_parse_command_line.
  destruct (tornado_parse_command_line (process_of w)) as [[e|] [o l h]];
    by simpl.
Qed.

Lemma raised_cons p cfg before cfg' :
  raised p (cfg :: before) cfg'
  = raised (tornado_parse_config_file cfg p).2 before cfg'.
Proof. done. Qed.

(** The calls [parse_each] makes: one for each file of a prefix of the
    list, each call but the last returning, and the last raising exactly
    when the whole does. *)
Lemma parse_each_spec files w :
  let r := parse_each files w in
  ∃ attempted,
    attempted `prefix_of` files
    ∧ calls r.2 = calls w ++ (ParseConfigFile <$> attempted)
    ∧ self r.2 = self w
    ∧ process_of r.2 = process_after attempted (process_of w)
    ∧ (r.1 = Done () → attempted = files)
    ∧ (∀ e, r.1 = Failed e → attempted ≠ [])
    ∧ (∀ i cfg, attempted !! i = Some cfg →
         raised (process_of w) (take i attempted) cfg
         = if decide (Datatypes.S i = length attempted) then error_of r.1
           else None).
Proof.
  revert w. induction files as [|cfg files IH]; intros w; simpl.
  - exists []. unfold_S. simpl. rewrite app_nil_r. by split_and!.
  - unfold_S.
    pose proof (call_parse_config_file_spec cfg w) as (Hc & Hs & Hp & He).
    destruct (call_parse_config_file cfg w) as [[[]|e] w1] eqn:E; simpl in *.
    + destruct (IH w1)
        as (attempted & Hpre & Hcalls & Hself & Hproc & Hdone & Hfail & Htr).
      exists (cfg :: attempted). split_and!.
      * by apply prefix_cons.
      * rewrite Hcalls, Hc. simpl. by rewrite <- app_assoc.
      * by etrans.
      * by rewrite Hproc, Hp.
      * intros Hd. f_equal. by apply Hdone.
      * done.
      * intros [|i] c Hi; simpl in Hi.
        -- simplify_eq. unfold raised. simpl. rewrite <- He.
           case_decide as Hlen; [| done].
           destruct attempted; [| done].
           destruct (parse_each files w1).1 as [[]|e'] eqn:Er; [done |].
           by destruct (Hfail e').
        -- simpl take. rewrite raised_cons, <- Hp, (Htr i c Hi). simpl.
           repeat case_decide; try done; lia.
    + exists [cfg]. split_and!; try done.
      * apply prefix_cons, prefix_nil.
      * intros [|i] c Hi; simpl in Hi; [| done]. simplify_eq.
        unfold raised. simpl. by rewrite <- He.
Qed.

Lemma loop_parse_each filename paths w :
  parse_config_files_loop filename paths w
  = parse_each
      (filter (λ cfg, os_path_exists cfg)
         (path ← paths;
          [os_path_join path "config.cfg"; os_path_join path filename]))
      w.
Proof.
  revert w. induction paths as [|path paths IH]; intros w; [done |].
  simpl. rewrite !filter_cons. unfold_S.
  destruct (os_path_exists (os_path_join path "config.cfg")) eqn:E1;
    destruct (os_path_exists (os_path_join path filename)) eqn:E2;
    simpl; unfold_S.
  - destruct (call_parse_config_file _ w) as [[[]|e] w1]; [| done].
    destruct (call_parse_config_file _ w1) as [[[]|e] w2]; [| done].
    apply IH.
  - destruct (call_parse_config_file _ w) as [[[]|e] w1]; [| done]. apply IH.
  - destruct (call_parse_config_file _ w) as [[[]|e] w1]; [| done]. apply IH.
  - apply IH.
Qed.

Lemma environment_spec w :
  environment w = (Done (environment_of w), with_environment w).
Proof.
  unfold environment, with_environment, environment_of.
  destruct w as [[sl [env|] cf] o lv hs cs]; by simpl.
Qed.

Lemma with_environment_idemp w :
  with_environment (with_environment w) = with_environment w.
Proof. done. Qed.

Lemma environment_of_with_environment w :
  environment_of (with_environment w) = environment_of w.
Proof. done. Qed.

Lemma parse_config_files_parse_each w :
  parse_config_files w
  = parse_each (config_files_found (environment_of w)) (with_environment w).
Proof.
  unfold parse_config_files. unfold_S. rewrite !environment_spec.
  rewrite with_environment_idemp, environment_of_with_environment.
  apply loop_parse_each.
Qed.
End service_facts.

Section configuration.
Context `{Libraries Options Err}.
Implicit Types (w : world Options) (files : list string).

Lemma config_files_found_spec env cfg :
  cfg ∈ config_files_found env →
  os_path_exists cfg = true
  ∧ ∃ path, path ∈ config_file_paths env
            ∧ (cfg = os_path_join path "config.cfg"
               ∨ cfg = os_path_join path (config_name env)).
Proof.
  unfold config_files_found, config_file_candidates.
  intros [Hex Hin]%list_elem_of_filter. split; [by destruct (os_path_exists cfg) |].
  apply list_elem_of_bind in Hin as (path & Hcfg & Hpath).
  exists path. split; [done |].
  apply elem_of_cons in Hcfg as [-> | Hcfg]; [by left |].
  apply list_elem_of_singleton in Hcfg as ->. by right.
Qed.

(** X7: [parse_config_files] hands to tornado the configuration files
    that exist, and no other: for each path of the environment, in order,
    the general [config.cfg] and then the file named by the environment.
    A file that is missing is skipped without an error.  Every call but
    the last returns; the last one raises exactly when
    [parse_config_files] does, with the same error, so that the files
    after one on which tornado raises are not read; and a run that
    returns has had every file that exists parsed. *)
Theorem parse_config_files_reads_found_files (w : world Options) :
  let env := environment_of w in
  let r := parse_config_files w in
  ∃ attempted,
    attempted `prefix_of` config_files_found env
    ∧ calls r.2 = calls w ++ (ParseConfigFile <$> attempted)
    ∧ process_of r.2 = process_after attempted (process_of w)
    ∧ (r.1 = Done () → attempted = config_files_found env)
    ∧ (∀ e, r.1 = Failed e →
         ∃ before cfg, attempted = before ++ [cfg]
                       ∧ raised (process_of w) before cfg = Some e)
    ∧ (∀ i cfg, attempted !! i = Some cfg →
         raised (process_of w) (take i attempted) cfg
         = if decide (Datatypes.S i = length attempted) then error_of r.1
           else None)
    ∧ (∀ cfg, cfg ∈ attempted →
         os_path_exists cfg = true
         ∧ ∃ path, path ∈ config_file_paths env
                   ∧ (cfg = os_path_join path "config.cfg"
                      ∨ cfg = os_path_join path (config_name env))).
Proof.
  intros env r. subst r. rewrite parse_config_files_parse_each. fold env.
  destruct (parse_each_spec (config_files_found env) (with_environment w))
    as (attempted & Hpre & Hcalls & _ & Hproc & Hdone & Hfail & Htrace).
  exists attempted. split_and!; try done.
  - intros e He. specialize (Hfail e He).
    destruct (decide (attempted = [])) as [| _]; [done |].
    destruct attempted as [|c l _] using rev_ind; [done |].
    exists l, c. split; [done |].
    specialize (Htrace (length l) c).
    rewrite take_app_length, length_app in Htrace. simpl in Htrace.
    rewrite lookup_app_r, Nat.sub_diag in Htrace by done.
    specialize (Htrace eq_refl).
    change (process_of (with_environment w)) with (process_of w) in Htrace.
    rewrite Htrace, He. by rewrite decide_True by lia.
  - intros cfg Hin. apply config_files_found_spec.
    destruct Hpre as [more ->]. apply elem_of_app. by left.
Qed.

Example parse_config_files_stops_at_the_error :
  parse_config_files broken_world
  = (Failed "SyntaxError",
     mkWorld (self broken_world)
       ["/etc/myservice/config.cfg"; "/etc/myservice/user_hostname.cfg"]
       (Some "info") [OtherHandler "console"]
       [ParseConfigFile "/etc/myservice/config.cfg";
        ParseConfigFile "/etc/myservice/user_hostname.cfg";
        ParseConfigFile "/etc/broken/config.cfg"]).
Proof. vm_compute. reflexivity. Qed.

Lemma config_set w :
  is_Some (_config (self w)) → config w = (Done (options w), w).
Proof. intros [[] Hc]. unfold config. by rewrite Hc. Qed.

(** The first reading of [config], when it goes through. *)
Lemma config_unset_done w o :
  _config (self w) = None → (config w).1 = Done o →
  let w' := (config w).2 in
  self w'
  = mkInstance (_slog (self w)) (Some (environment_of w)) (Some ())
  ∧ o = options w'
  ∧ calls w'
    = calls w ++ (ParseConfigFile <$> config_files_found (environment_of w))
      ++ [ParseCommandLine].
Proof.
  intros Hc. unfold config. rewrite Hc. unfold_S.
  rewrite parse_config_files_parse_each.
  destruct (parse_each_spec (config_files_found (environment_of w))
              (with_environment w))
    as (attempted & _ & Hcalls & Hs & _ & Hdone & _).
  destruct (parse_each _ _) as [[[]|e] w1]; [| done]. simpl in *.
  rewrite (Hdone eq_refl) in Hcalls. unfold parse_command_line.
  pose proof (call_parse_command_line_spec w1) as (Hc2 & Hs2 & _).
  destruct (call_parse_command_line w1) as [[[]|e] w2]; [| done]. simpl in *.
  intros [= <-]. rewrite Hs2, Hs, Hc2, Hcalls.
  by rewrite <- app_assoc.
Qed.

(** The first reading of [config], when tornado raises. *)
Lemma config_unset_failed w e :
  _config (self w) = None → (config w).1 = Failed e →
  let w' := (config w).2 in
  self w' = self (with_environment w)
  ∧ length (calls w) < length (calls w').
Proof.
  intros Hc. unfold config. rewrite Hc. unfold_S.
  rewrite parse_config_files_parse_each.
  destruct (parse_each_spec (config_files_found (environment_of w))
              (with_environment w))
    as (attempted & _ & Hcalls & Hs & _ & _ & Hfail & _).
  destruct (parse_each _ _) as [[[]|e1] w1]; simpl in *.
  - unfold parse_command_line.
    pose proof (call_parse_command_line_spec w1) as (Hc2 & Hs2 & _).
    destruct (call_parse_command_line w1) as [[[]|e2] w2]; [done |].
    simpl in *. intros _. rewrite Hs2, Hs, Hc2, Hcalls.
    split_and!; try done. rewrite !length_app. simpl. lia.
  - intros _. split_and!; try done. rewrite Hcalls, length_app, length_fmap.
    specialize (Hfail e1 eq_refl). destruct attempted; [done | simpl; lia].
Qed.

Lemma config_slog w : _slog (self (config w).2) = _slog (self w).
Proof.
  destruct (_config (self w)) as [[]|] eqn:Hc.
  - by rewrite config_set.
  - destruct (config w).1 as [o|e] eqn:Hr.
    + destruct (config_unset_done w o Hc Hr) as (Hs & _). by rewrite Hs.
    + destruct (config_unset_failed w e Hc Hr) as (Hs & _). by rewrite Hs.
Qed.

Lemma config_done w o :
  (config w).1 = Done o →
  _config (self (config w).2) = Some () ∧ o = options (config w).2.
Proof.
  intros Hr. destruct (_config (self w)) as [[]|] eqn:Hc.
  - rewrite config_set in * by done. simpl in *. by simplify_eq.
  - destruct (config_unset_done w o Hc Hr) as (Hs & Ho & _). by rewrite Hs.
Qed.

(** X8: the configuration is read once.  After an access to [config]
    that returns, the attribute is set and every further access returns
    the same options without a call into tornado and without a change of
    state. *)
Theorem config_is_read_once (w : world Options) (o : Options) :
  (config w).1 = Done o →
  let w' := (config w).2 in
  is_Some (_config (self w')) ∧ o = options w'
  ∧ config w' = (Done o, w').
Proof.
  intros Hr w'. subst w'. destruct (config_done w o Hr) as [Hc Ho].
  split_and!; [by rewrite Hc | done |].
  rewrite config_set by (by rewrite Hc). by rewrite <- Ho.
Qed.

(** X9: the first access to [config] that returns has had tornado parse
    the configuration files that exist, in the order of the paths and
    with the general file before the named one, and then, last, the
    command line. *)
Theorem config_parses_command_line_last (w : world Options) (o : Options) :
  _config (self w) = None → (config w).1 = Done o →
  calls (config w).2
  = calls w ++ (ParseConfigFile <$> config_files_found (environment_of w))
    ++ [ParseCommandLine].
Proof.
  intros Hc Hr. destruct (config_unset_done w o Hc Hr) as (_ & _ & Hcalls).
  exact Hcalls.
Qed.

(** X10: a configuration that fails to load is not kept.  When the first
    access to [config] raises, the attribute [_config] stays unset,
    although tornado has been called, so the next access starts the
    parsing over. *)
Theorem failed_config_is_not_cached (w : world Options) (e : Err) :
  _config (self w) = None → (config w).1 = Failed e →
  let w' := (config w).2 in
  _config (self w') = None ∧ length (calls w) < length (calls w')
  ∧ config w'
    = (_ ← parse_config_files; _ ← parse_command_line; store_config) w'.
Proof.
  intros Hc Hr w'. subst w'.
  destruct (config_unset_failed w e Hc Hr) as (Hs & Hcalls).
  assert (_config (self (config w).2) = None) as Hn by (by rewrite Hs).
  split_and!; [done.. |]. unfold config at 1. by rewrite Hn.
Qed.
End configuration.

Example config_files_of_the_docstring :
  calls (parse_config_files fresh_world).2
  = [ParseConfigFile "/etc/myservice/config.cfg";
     ParseConfigFile "/etc/myservice/user_hostname.cfg";
     ParseConfigFile "./etc/user_hostname.cfg"].
Proof. vm_compute. reflexivity. Qed.

Lemma config_is_read_once_witness :
  let w' := (config fresh_world).2 in
  is_Some (_config (self w'))
  ∧ config w' = (Done (options w'), w').
Proof.
  destruct (config_is_read_once fresh_world (options (config fresh_world).2))
    as (Hc & _ & Hagain).
  - vm_compute. reflexivity.
  - split; [exact Hc | exact Hagain].
Defined.

Lemma config_parses_command_line_last_witness :
  calls (config fresh_world).2
  = [ParseConfigFile "/etc/myservice/config.cfg";
     ParseConfigFile "/etc/myservice/user_hostname.cfg";
     ParseConfigFile "./etc/user_hostname.cfg";
     ParseCommandLine].
Proof.
  rewrite (config_parses_command_line_last fresh_world
             (options (config fresh_world).2)).
  - vm_compute. reflexivity.
  - reflexivity.
  - vm_compute. reflexivity.
Defined.

Lemma failed_config_is_not_cached_witness :
  _config (self (config broken_world).2) = None
  ∧ calls (config broken_world).2
    = [ParseConfigFile "/etc/myservice/config.cfg";
       ParseConfigFile "/etc/myservice/user_hostname.cfg";
       ParseConfigFile "/etc/broken/config.cfg"].
Proof.
  destruct (failed_config_is_not_cached broken_world "SyntaxError")
    as (Hn & _ & _).
  - reflexivity.
  - vm_compute. reflexivity.
  - split; [exact Hn | vm_compute; reflexivity].
Defined.

(** ** The service: logging *)

Section logging.
Context `{Libraries Options Err}.
Implicit Types (w : world Options) (p : process Options).

Lemma initialize_logging_skip w :
  supercell_handlers w ≠ 0 → initialize_logging w = (Done (), w).
Proof.
  intros Hn. unfold initialize_logging. by rewrite decide_False.
Qed.

(** The first initialisation, when it goes through: the level is set
    and the handler is added on the root logger as the reading of the
    configuration leaves it. *)
Lemma initialize_logging_done w :
  supercell_handlers w = 0 → (initialize_logging w).1 = Done () →
  let w' := (initialize_logging w).2 in
  root_handlers w'
  = root_handlers (config w).2
    ++ [SupercellLoggingHandler (options_logfile (options w'))]
  ∧ root_level w' = Some (options_loglevel (options w'))
  ∧ options w' = options (config w).2
  ∧ is_Some (_config (self w'))
  ∧ _slog (self w') = _slog (self w)
  ∧ calls w' = calls (config w).2.
Proof.
  intros Hz. unfold initialize_logging. rewrite decide_True by done.
  unfold_S.
  pose proof (config_slog w) as Hsl.
  destruct (config w) as [[o|e] w1] eqn:E; [| done]. simpl in *.
  destruct (config_done w o) as [Hc Ho]; [by rewrite E |].
  rewrite E in Hc, Ho. simpl in Hc, Ho.
  unfold root_setLevel. destruct (logging_setLevel_error _); [done |].
  rewrite config_set by (simpl; rewrite Hc; eauto). simpl.
  unfold root_addHandler_new. destruct (new_handler_error _); [done |].
  simpl. intros _. subst o. rewrite Hc, Hsl. split_and!; eauto.
Qed.

Lemma supercell_handlers_last w (hs : list handler) logfile :
  root_handlers w = hs ++ [SupercellLoggingHandler logfile] →
  supercell_handlers w
  = Datatypes.S (length (filter (λ h, is_supercell_handler h) hs)).
Proof.
  unfold supercell_handlers. intros ->.
  rewrite filter_app, length_app. simpl. lia.
Qed.

Lemma filter_other_handlers (more : list handler) :
  Forall (λ h, is_supercell_handler h = false) more →
  filter (λ h, is_supercell_handler h) more = [].
Proof.
  induction 1 as [|h more Hh _ IH]; [done |].
  rewrite filter_cons, IH. by rewrite Hh.
Qed.

Lemma adds_other_handlers_refl p : adds_other_handlers p p.
Proof. exists []. by rewrite app_nil_r. Qed.

Lemma adds_other_handlers_trans p1 p2 p3 :
  adds_other_handlers p1 p2 → adds_other_handlers p2 p3 →
  adds_other_handlers p1 p3.
Proof.
  intros (m1 & H1 & F1) (m2 & H2 & F2). exists (m1 ++ m2). split.
  - by rewrite H2, H1, app_assoc.
  - by apply Forall_app.
Qed.

Lemma process_after_adds files p :
  tornado_adds_other_handlers →
  adds_other_handlers p (process_after files p).
Proof.
  intros [Hfile _]. revert p.
  induction files as [|cfg files IH]; intros p.
  - apply adds_other_handlers_refl.
  - eapply adds_other_handlers_trans; [apply (Hfile cfg) | apply IH].
Qed.

(** Under such a tornado the reading of the configuration, whether it
    returns or raises, adds handlers of other classes after those of the
    root logger and nothing else. *)
Lemma config_adds_other_handlers w :
  tornado_adds_other_handlers →
  adds_other_handlers (process_of w) (process_of (config w).2).
Proof.
  intros Ht. destruct (_config (self w)) as [[]|] eqn:Hc.
  { rewrite config_set by done. apply adds_other_handlers_refl. }
  unfold config. rewrite Hc. unfold_S.
  rewrite parse_config_files_parse_each.
  destruct (parse_each_spec (config_files_found (environment_of w))
              (with_environment w))
    as (attempted & _ & _ & _ & Hp & _).
  assert (adds_other_handlers (process_of w)
            (process_of (parse_each (config_files_found (environment_of w))
                           (with_environment w)).2)) as Hfiles.
  { rewrite Hp. by apply process_after_adds. }
  destruct (parse_each _ _) as [[[]|e] w1]; [| done]. simpl in *.
  unfold parse_command_line.
  pose proof (call_parse_command_line_spec w1) as (_ & _ & Hp2).
  assert (adds_other_handlers (process_of w)
            (process_of (call_parse_command_line w1).2)) as Hline.
  { eapply adds_other_handlers_trans; [exact Hfiles |].
    rewrite Hp2. apply Ht. }
  by destruct (call_parse_command_line w1) as [[[]|e] w2].
Qed.

(** X11: [initialize_logging] gives the root logger a
    [SupercellLoggingHandler] when it has none and does nothing at all
    when it has one.  After a call that returns the root logger has one;
    the new one comes last, after the handlers the reading of the
    configuration has left; and a second call changes nothing.  When the
    parsing of tornado only adds handlers of other classes, there are as
    many [SupercellLoggingHandler]s as before, or one if there was none,
    and the handlers that were there keep their places. *)
Theorem initialize_logging_adds_one_handler (w : world Options) :
  (initialize_logging w).1 = Done () →
  let w' := (initialize_logging w).2 in
  0 < supercell_handlers w'
  ∧ (0 < supercell_handlers w → w' = w)
  ∧ (supercell_handlers w = 0 →
     root_handlers w'
     = root_handlers (config w).2
       ++ [SupercellLoggingHandler (options_logfile (options w'))])
  ∧ initialize_logging w' = (Done (), w')
  ∧ (tornado_adds_other_handlers →
     supercell_handlers w' = Nat.max 1 (supercell_handlers w)
     ∧ root_handlers w `prefix_of` root_handlers w').
Proof.
  intros Hr w'. subst w'.
  destruct (decide (supercell_handlers w = 0)) as [Hz | Hnz].
  - destruct (initialize_logging_done w Hz Hr) as (Hh & _).
    pose proof (supercell_handlers_last _ _ _ Hh) as Hcount.
    split_and!.
    + lia.
    + lia.
    + done.
    + apply initialize_logging_skip. lia.
    + intros Ht.
      destruct (config_adds_other_handlers w Ht) as (more & Hmore & Hother).
      simpl in Hmore. rewrite Hcount, Hh, Hmore. split.
      * rewrite filter_app, length_app. fold (supercell_handlers w).
        by rewrite Hz, (filter_other_handlers more).
      * rewrite <- app_assoc. by apply prefix_app_r.
  - rewrite initialize_logging_skip by done. simpl. split_and!.
    + lia.
    + done.
    + done.
    + by apply initialize_logging_skip.
    + intros _. split; [lia | done].
Qed.

(** X12: the first initialisation of logging reads the configuration
    once, although it looks at [config] twice: tornado parses the
    configuration files and then the command line, one time each.  The
    options are those the parsing leaves; the root logger gets the level
    they name, over whatever level tornado has set, and the new handler,
    for the log file they name, comes after the handlers the parsing has
    left. *)
Theorem initialize_logging_reads_config_once (w : world Options) :
  _config (self w) = None → supercell_handlers w = 0 →
  (initialize_logging w).1 = Done () →
  let w' := (initialize_logging w).2 in
  calls w'
  = calls w ++ (ParseConfigFile <$> config_files_found (environment_of w))
    ++ [ParseCommandLine]
  ∧ options w' = options (config w).2
  ∧ root_level w' = Some (options_loglevel (options w'))
  ∧ root_handlers w'
    = root_handlers (config w).2
      ++ [SupercellLoggingHandler (options_logfile (options w'))].
Proof.
  intros Hc Hz Hr w'. subst w'.
  destruct (initialize_logging_done w Hz Hr)
    as (Hh & Hl & Ho & _ & _ & Hcalls).
  split_and!; [| done..]. rewrite Hcalls.
  unfold initialize_logging in Hr. rewrite decide_True in Hr by done.
  unfold_S. destruct (config w).1 as [o|e] eqn:E.
  - by destruct (config_unset_done w o Hc E) as (_ & _ & ?).
  - destruct (config w) as [r w1]. simpl in E. by subst r.
Qed.

(** X13: the logger is made once.  After an access to [slog] that
    returns, the attribute holds the logger and every further access
    returns it without a change of state; when the attribute was not set
    before, the logger is the one named [supercell] and the root logger
    has a [SupercellLoggingHandler]. *)
Theorem slog_is_made_once (w : world Options) (logger : string) :
  (slog w).1 = Done logger →
  let w' := (slog w).2 in
  _slog (self w') = Some logger
  ∧ slog w' = (Done logger, w')
  ∧ (_slog (self w) = None →
     logger = "supercell" ∧ 0 < supercell_handlers w').
Proof.
  unfold slog at 1 2 3. destruct (_slog (self w)) as [l|] eqn:Hs; simpl.
  - intros [= ->]. unfold slog. rewrite Hs. by split_and!.
  - unfold_S. intros Hr.
    assert (0 < supercell_handlers (initialize_logging w).2
            ∨ (initialize_logging w).1 ≠ Done ()) as Hcount.
    { destruct (decide (supercell_handlers w = 0)) as [Hz | Hnz].
      - destruct ((initialize_logging w).1) as [[]|e] eqn:Hi; [| by right].
        left. destruct (initialize_logging_done w Hz Hi) as (Hh & _).
        rewrite (supercell_handlers_last _ _ _ Hh). lia.
      - left. rewrite initialize_logging_skip by done. simpl. lia. }
    destruct (initialize_logging w) as [[[]|e] w1]; [| done].
    simpl in *. injection Hr as <-. split_and!; [done | done |].
    intros _. split; [done |]. by destruct Hcount.
Qed.
End logging.

Lemma example_tornado_adds_other_handlers :
  @tornado_adds_other_handlers _ _ example_libraries.
Proof.
  assert (∀ o p, adds_other_handlers p (example_pretty_logging o p)) as Hp.
  { intros o [po pl [|h hs]]; eexists; (split; [reflexivity |]).
    - by repeat constructor.
    - constructor. }
  split.
  - intros cfg p. simpl. case_bool_decide; simpl; [| apply Hp].
    exists []. by rewrite app_nil_r.
  - intros p. apply Hp.
Qed.

Lemma initialize_logging_adds_one_handler_witness :
  let w' := (initialize_logging bare_world).2 in
  root_handlers w'
  = [OtherHandler "StreamHandler"; SupercellLoggingHandler "root.log"]
  ∧ initialize_logging w' = (Done (), w')
  ∧ supercell_handlers w' = 1.
Proof.
  destruct (initialize_logging_adds_one_handler bare_world)
    as (_ & _ & Hlast & Hagain & Hcount).
  - vm_compute. reflexivity.
  - split_and!.
    + rewrite Hlast by reflexivity. vm_compute. reflexivity.
    + exact Hagain.
    + by destruct (Hcount example_tornado_adds_other_handlers) as [-> _].
Defined.

Lemma initialize_logging_reads_config_once_witness :
  let w' := (initialize_logging bare_world).2 in
  calls w'
  = [ParseConfigFile "/etc/myservice/config.cfg";
     ParseConfigFile "/etc/myservice/user_hostname.cfg";
     ParseConfigFile "./etc/user_hostname.cfg";
     ParseCommandLine]
  ∧ root_level w' = Some "INFO"
  ∧ root_handlers w'
    = [OtherHandler "StreamHandler"; SupercellLoggingHandler "root.log"].
Proof.
  destruct (initialize_logging_reads_config_once bare_world)
    as (Hcalls & _ & Hlevel & Hhandlers).
  - reflexivity.
  - reflexivity.
  - vm_compute. reflexivity.
  - split_and!.
    + rewrite Hcalls. vm_compute. reflexivity.
    + rewrite Hlevel. reflexivity.
    + rewrite Hhandlers. vm_compute. reflexivity.
Defined.

Lemma slog_is_made_once_witness :
  let w' := (slog bare_world).2 in
  slog w' = (Done "supercell", w') ∧ 0 < supercell_handlers w'.
Proof.
  destruct (slog_is_made_once bare_world "supercell") as (_ & Hagain & Hnew).
  - vm_compute. reflexivity.
  - split; [exact Hagain | by apply Hnew].
Defined.
